(** * LCOE calculator: the calculation engine (calculator.js)

    A shallow embedding of the financial engine of the solar LCOE
    calculator: [calculateCAPEX], [calculateEMI_likeExcel],
    [calculateTotalOM], [calculateTotalEnergy], [calculateNPV],
    [calculateNPVlikeExcel], [calculateCUE], [calculateLCOE] and
    [generateSensitivityAnalysis].

    Numbers.  A JavaScript number is modelled by [number]: a finite value
    (an exact rational, so rounding and overflow of IEEE doubles are
    idealised away and zero carries no sign) or one of the three special
    values the engine can produce by dividing by zero, [PosInf], [NegInf]
    and [NaN].  The arithmetic follows the IEEE rules on special values.
    [project_lifetime] (read with [parseInt] by the form, and varied by
    no chart) is an integer of any sign. [loan_tenure] is a number: the
    form reads an integer, the tornado chart passes fractions of it.

    As far as possible the properties are stated so that they can be
    read on doubles as well: an equality keeps the operations of the
    source and their order, an inequality uses only that the operations
    are monotone.

    The [console.log] calls of the source have no part in the values and
    are left out, and so is [calculateEMI], which nothing calls. *)

From Stdlib Require Import QArith Qpower Lqa ZArith Lia List Bool Sorted.
Import ListNotations.

Open Scope Q_scope.

(** ** JavaScript numbers *)

Module Num.

Inductive number : Type :=
| Fin (q : Q)
| PosInf
| NegInf
| NaN.

Definition of_Z (z : Z) : number := Fin (inject_Z z).

Definition neg (x : number) : number :=
  match x with
  | Fin a => Fin (- a)
  | PosInf => NegInf
  | NegInf => PosInf
  | NaN => NaN
  end.

(** The infinity with the sign of [a], [NaN] for zero: the value of
    [a * Infinity] and of [a / 0]. *)
Definition signed_inf (a : Q) : number :=
  match Qcompare a 0 with
  | Gt => PosInf
  | Lt => NegInf
  | Eq => NaN
  end.

Definition add (x y : number) : number :=
  match x, y with
  | NaN, _ | _, NaN => NaN
  | Fin a, Fin b => Fin (a + b)
  | PosInf, NegInf | NegInf, PosInf => NaN
  | PosInf, _ | _, PosInf => PosInf
  | NegInf, _ | _, NegInf => NegInf
  end.

Definition sub (x y : number) : number := add x (neg y).

Definition mul (x y : number) : number :=
  match x, y with
  | NaN, _ | _, NaN => NaN
  | Fin a, Fin b => Fin (a * b)
  | Fin a, PosInf | PosInf, Fin a => signed_inf a
  | Fin a, NegInf | NegInf, Fin a => neg (signed_inf a)
  | PosInf, PosInf | NegInf, NegInf => PosInf
  | PosInf, NegInf | NegInf, PosInf => NegInf
  end.

Definition div (x y : number) : number :=
  match x, y with
  | NaN, _ | _, NaN => NaN
  | Fin a, Fin b => if Qeq_bool b 0 then signed_inf a else Fin (a / b)
  | Fin _, PosInf | Fin _, NegInf => Fin 0
  | PosInf, Fin b => if Qle_bool 0 b then PosInf else NegInf
  | NegInf, Fin b => if Qle_bool 0 b then NegInf else PosInf
  | _, _ => NaN
  end.

(** [Math.pow(x, n)] for a loop counter [n]: the exponent is a natural
    number; [Math.pow(x, 0)] is 1 for every [x], [NaN] included. *)
Definition pow (x : number) (n : nat) : number :=
  match n with
  | O => Fin 1
  | S _ =>
      match x with
      | Fin a => Fin (a ^ Z.of_nat n)
      | PosInf => PosInf
      | NegInf => if Nat.even n then PosInf else NegInf
      | NaN => NaN
      end
  end.

(** [x < y]; every comparison with [NaN] is false. *)
Definition ltb (x y : number) : bool :=
  match x, y with
  | NaN, _ | _, NaN => false
  | Fin a, Fin b => negb (Qle_bool b a)
  | PosInf, _ | _, NegInf => false
  | NegInf, _ | Fin _, PosInf => true
  end.

(** [x <= y]. *)
Definition leb (x y : number) : bool :=
  match x, y with
  | NaN, _ | _, NaN => false
  | Fin a, Fin b => Qle_bool a b
  | NegInf, _ | _, PosInf => true
  | _, _ => false
  end.

(** [x > y]. *)
Definition gtb (x y : number) : bool := ltb y x.

(** [x === y]; [NaN === NaN] is false. *)
Definition strict_eqb (x y : number) : bool :=
  match x, y with
  | Fin a, Fin b => Qeq_bool a b
  | PosInf, PosInf | NegInf, NegInf => true
  | _, _ => false
  end.

(** The same value: equality of finite values as rationals, and each
    special value the same as itself. *)
Definition same (x y : number) : Prop :=
  match x, y with
  | Fin a, Fin b => a == b
  | PosInf, PosInf | NegInf, NegInf | NaN, NaN => True
  | _, _ => False
  end.

End Num.

Export Num.

Declare Scope num_scope.
Delimit Scope num_scope with num.
Bind Scope num_scope with number.
Infix "+" := add : num_scope.
Infix "-" := sub : num_scope.
Infix "*" := mul : num_scope.
Infix "/" := div : num_scope.
Infix "<?" := ltb : num_scope.
Infix "<=?" := leb : num_scope.
Infix ">?" := gtb (at level 70) : num_scope.
Infix "===" := strict_eqb (at level 70) : num_scope.
Infix "~=" := same (at level 70) : num_scope.

Open Scope num_scope.

(** Numeric literals of the source. *)
Coercion of_Z : Z >-> number.

(** ** Constants and configuration *)

Module CONSTANTS.
Definition hours_in_year : number := 8760%Z.
Definition opex_escalation_rate : number := Fin (5 # 100).
Definition degradation_rate : number := Fin (5 # 1000).
End CONSTANTS.

(** ** Loops

    [for (let i = i0; ...; i++) s = body(i, s)] run for [n] iterations
    from counter [i]. For [for (let i = 0; i < years; i++)] with an integer
    bound the number of iterations is [Z.to_nat years]: none when
    [years <= 0]. *)
Fixpoint for_loop {State : Type} (body : nat -> State -> State) (n i : nat)
  (s : State) : State :=
  match n with
  | O => s
  | S n' => for_loop body n' (S i) (body i s)
  end.

(** ** Core calculation functions *)

Definition calculateCAPEX (capacity capex_per_mw : number) : number :=
  capex_per_mw / capacity.

(** The third argument, [years], is not used by the source. *)
Definition calculateEMI_likeExcel (principal annual_rate years : number)
  : number :=
  let r := annual_rate / 100%Z in
  let ann_emi := principal * r in
  ann_emi.

Definition calculateTotalOM (annual_opex : number) (years : Z) : number :=
  for_loop
    (fun i total =>
       let escalated_opex :=
         annual_opex * pow (1%Z + CONSTANTS.opex_escalation_rate) i in
       total + escalated_opex)
    (Z.to_nat years) 0 (0%Z : number).

Definition calculateTotalEnergy (annual_energy : number) (years : Z) : number :=
  for_loop
    (fun i total =>
       let degraded_energy :=
         annual_energy * pow (1%Z - CONSTANTS.degradation_rate) i in
       total + degraded_energy)
    (Z.to_nat years) 0 (0%Z : number).

(** [cash_flows[t]]: reading past the end gives [undefined], which is
    [NaN] in arithmetic. *)
Definition index (cash_flows : list number) (t : nat) : number :=
  nth t cash_flows NaN.

(** The discounting loop shared by [calculateNPV] and
    [calculateNPVlikeExcel]. *)
Definition npv_loop (rate : number) (cash_flows : list number) : number :=
  for_loop
    (fun t npv =>
       let pv := index cash_flows t / pow (1%Z + rate) (t + 1) in
       npv + pv)
    (length cash_flows) 0 (0%Z : number).

Definition calculateNPV (discount_rate : number) (cash_flows : list number)
  : number :=
  let rate := discount_rate / 100%Z in
  npv_loop rate cash_flows.

(** [cash_flows.unshift(0.0)] changes the caller's array: the function
    returns the value together with the array as the call leaves it. *)
Definition calculateNPVlikeExcel (discount_rate : number)
  (cash_flows : list number) : number * list number :=
  let rate := discount_rate / 100%Z in
  let cash_flows := (0%Z : number) :: cash_flows in
  (npv_loop rate cash_flows, cash_flows).

Definition calculateCUE (annual_energy capacity : number) : number :=
  if capacity === 0%Z then 0%Z
  else annual_energy / (capacity * CONSTANTS.hours_in_year).

(** ** The orchestrator *)

Record Inputs : Type := mkInputs {
  capacity : number;
  energy_generation : number;
  capex_per_mw : number;
  opex_percent : number;
  interest_rate : number;
  loan_tenure : number;
  project_lifetime : Z;
  discount_rate : number
}.

Record Result : Type := mkResult {
  capex : number;
  annual_opex : number;
  annual_emi : number;
  total_om : number;
  total_loan : number;
  total_opex : number;
  npv_opex : number;
  total_energy : number;
  lcoe_mwh : number;
  lcoe_kwh : number;
  cue : number;
  cash_flows : list number
}.

(** Step 5, the two components of one year of the loop body. *)
Definition om_year (annual_opex : number) (year : nat) : number :=
  annual_opex * pow (1%Z + CONSTANTS.opex_escalation_rate) year.

Definition emi_year (annual_emi loan_tenure : number) (year : nat)
  : number :=
  if of_Z (Z.of_nat year) <? loan_tenure then annual_emi else 0%Z.

(** Step 5: [cash_flows.push(om_year + emi_year)] for each year. *)
Definition build_cash_flows (annual_opex annual_emi loan_tenure : number)
  (project_lifetime : Z) : list number :=
  for_loop
    (fun year cash_flows =>
       cash_flows ++
         [om_year annual_opex year + emi_year annual_emi loan_tenure year])
    (Z.to_nat project_lifetime) 0 [].

Definition calculateLCOE (inputs : Inputs) : Result :=
  let capacity := capacity inputs in
  let energy_generation := energy_generation inputs in
  let capex_per_mw := capex_per_mw inputs in
  let opex_percent := opex_percent inputs in
  let interest_rate := interest_rate inputs in
  let loan_tenure := loan_tenure inputs in
  let project_lifetime := project_lifetime inputs in
  let discount_rate := discount_rate inputs in
  (* Step 1 *)
  let capex := calculateCAPEX capacity capex_per_mw in
  let energy_generation_per_year := energy_generation / capacity in
  (* Step 2 *)
  let annual_opex := (capex * opex_percent) / 100%Z in
  let annual_emi := calculateEMI_likeExcel capex interest_rate loan_tenure in
  (* Step 3 *)
  let total_om := calculateTotalOM annual_opex project_lifetime in
  (* Step 4 *)
  let total_loan := annual_emi * loan_tenure in
  let total_opex := total_om + total_loan in
  (* Step 5 *)
  let cash_flows :=
    build_cash_flows annual_opex annual_emi loan_tenure project_lifetime in
  (* Step 6: the call leaves [cash_flows] with a leading zero *)
  let '(npv_opex, cash_flows) :=
    calculateNPVlikeExcel discount_rate cash_flows in
  (* Step 7 *)
  let total_energy :=
    calculateTotalEnergy energy_generation_per_year project_lifetime in
  (* Step 8 *)
  let lcoe_mwh :=
    if total_energy >? 0%Z then (capex + npv_opex) / total_energy else 0%Z in
  let lcoe_kwh := lcoe_mwh / 1000%Z in
  (* Step 9 *)
  let cue := calculateCUE energy_generation capacity in
  {| capex := capex;
     annual_opex := annual_opex;
     annual_emi := annual_emi;
     total_om := total_om;
     total_loan := total_loan;
     total_opex := total_opex;
     npv_opex := npv_opex;
     total_energy := total_energy;
     lcoe_mwh := lcoe_mwh;
     lcoe_kwh := lcoe_kwh;
     cue := cue;
     cash_flows := cash_flows |}.

(** ** Sensitivity sweep *)

Record SensitivityPoint : Type := mkPoint {
  pt_rate : number;
  pt_lcoe_kwh : number;
  pt_lcoe_mwh : number
}.

(** [{ ...base_inputs, discount_rate: rate }] *)
Definition with_discount_rate (base_inputs : Inputs) (rate : number) : Inputs :=
  {| capacity := capacity base_inputs;
     energy_generation := energy_generation base_inputs;
     capex_per_mw := capex_per_mw base_inputs;
     opex_percent := opex_percent base_inputs;
     interest_rate := interest_rate base_inputs;
     loan_tenure := loan_tenure base_inputs;
     project_lifetime := project_lifetime base_inputs;
     discount_rate := rate |}.

(** [for (let rate = min_rate; rate <= max_rate; rate += step)]: the
    number of iterations depends on the numbers, so the loop takes fuel
    and yields [None] when the fuel runs out before the test fails. *)
Fixpoint sweep_loop (fuel : nat) (base_inputs : Inputs)
  (rate max_rate step : number) (results : list SensitivityPoint)
  : option (list SensitivityPoint) :=
  match fuel with
  | O => None
  | S fuel' =>
      if rate <=? max_rate then
        let inputs := with_discount_rate base_inputs rate in
        let calc := calculateLCOE inputs in
        sweep_loop fuel' base_inputs (rate + step) max_rate step
          (results ++
             [{| pt_rate := rate;
                 pt_lcoe_kwh := lcoe_kwh calc;
                 pt_lcoe_mwh := lcoe_mwh calc |}])
      else Some results
  end.

Definition generateSensitivityAnalysis (fuel : nat) (base_inputs : Inputs)
  (min_rate max_rate step : number) : option (list SensitivityPoint) :=
  sweep_loop fuel base_inputs min_rate max_rate step [].

(** The default arguments [min_rate = 5, max_rate = 15, step = 0.5]. *)
Definition default_min_rate : number := 5%Z.
Definition default_max_rate : number := 15%Z.
Definition default_step : number := Fin (1 # 2).

(** The point the sweep records for [rate]. *)
Definition point_at (base_inputs : Inputs) (rate : number) : SensitivityPoint :=
  let calc := calculateLCOE (with_discount_rate base_inputs rate) in
  {| pt_rate := rate;
     pt_lcoe_kwh := lcoe_kwh calc;
     pt_lcoe_mwh := lcoe_mwh calc |}.

(** The rates the loop of the sweep visits. *)
Fixpoint sweep_rates (fuel : nat) (rate max_rate step : number)
  : option (list number) :=
  match fuel with
  | O => None
  | S fuel' =>
      if rate <=? max_rate then
        option_map (cons rate) (sweep_rates fuel' (rate + step) max_rate step)
      else Some []
  end.

(** The rates of the default sweep: 5, 5.5, ..., 15. *)
Definition default_rates : list Q :=
  Eval vm_compute in
    match sweep_rates 22 default_min_rate default_max_rate default_step with
    | Some rates =>
        map (fun x => match x with Fin q => q | _ => 0%Q end) rates
    | None => []
    end.

(** ** Notions used to state the properties *)

(** The sum of [f 0], ..., [f (n - 1)], added from the left starting
    at 0. *)
Fixpoint sum_upto (f : nat -> number) (n : nat) : number :=
  match n with
  | O => 0%Z
  | S k => sum_upto f k + f k
  end.

(** The cash flow the loop of Step 5 pushes for [year]. *)
Definition annual_cash_flow (inputs : Inputs) (year : nat) : number :=
  let r := calculateLCOE inputs in
  om_year (annual_opex r) year
  + emi_year (annual_emi r) (loan_tenure inputs) year.

(** The present value under the convention that the flow of year [k]
    (0-based) falls [k + shift] periods from now. *)
Definition discounted_sum (inputs : Inputs) (shift : nat) : number :=
  let rate := discount_rate inputs / 100%Z in
  sum_upto
    (fun k => annual_cash_flow inputs k / pow (1%Z + rate) (k + shift))
    (Z.to_nat (project_lifetime inputs)).

(** A field that holds a value: a finite number. *)
Definition holds_value (x : number) : Prop := exists q : Q, x = Fin q.

(** A result that reports invalid input without any derived quantity:
    none of its numeric fields holds a value. *)
Definition no_derived_quantity (r : Result) : Prop :=
  Forall (fun x => ~ holds_value x)
    [capex r; annual_opex r; annual_emi r; total_om r; total_loan r;
     total_opex r; npv_opex r; total_energy r; lcoe_mwh r; lcoe_kwh r;
     cue r].

(** [x <= 0] as the source would test it. *)
Definition non_positive (x : number) : Prop := (x <=? 0%Z) = true.

(** Sequences that never go down, and that never go up. *)
Definition non_decreasing (l : list number) : Prop :=
  StronglySorted (fun x y => (x <=? y) = true) l.

Definition non_increasing (l : list number) : Prop :=
  StronglySorted (fun x y => (y <=? x) = true) l.

(** A finite value that is not negative. *)
Definition finite_nonneg (x : number) : Prop :=
  exists a : Q, x = Fin a /\ (0 <= a)%Q.

(** Two finite values, the second not above the first. *)
Definition finite_ge (x y : number) : Prop :=
  exists a b : Q, x = Fin a /\ y = Fin b /\ (b <= a)%Q.

(** ** Sample inputs *)

(** Scenario A of the regression fixture. *)
Definition scenario_A : Inputs :=
  {| capacity := 1%Z;
     energy_generation := Fin (162753 # 100);
     capex_per_mw := 34400000%Z;
     opex_percent := 1%Z;
     interest_rate := Fin (825 # 100);
     loan_tenure := 20%Z;
     project_lifetime := 20;
     discount_rate := 9%Z |}.

(** One year, no loan, operating cost 100% of CAPEX, discounting at 100%:
    every intermediate value is a small integer. *)
Definition one_year : Inputs :=
  {| capacity := 1%Z;
     energy_generation := 1%Z;
     capex_per_mw := 4%Z;
     opex_percent := 100%Z;
     interest_rate := 0%Z;
     loan_tenure := 0%Z;
     project_lifetime := 1;
     discount_rate := 100%Z |}.

(** Two years, a loan over the first year only at 50%. *)
Definition two_years : Inputs :=
  {| capacity := 1%Z;
     energy_generation := 1%Z;
     capex_per_mw := 4%Z;
     opex_percent := 100%Z;
     interest_rate := 50%Z;
     loan_tenure := 1%Z;
     project_lifetime := 2;
     discount_rate := 100%Z |}.

(** A negative capacity. *)
Definition negative_capacity : Inputs :=
  {| capacity := (-2)%Z;
     energy_generation := 1%Z;
     capex_per_mw := 10%Z;
     opex_percent := 100%Z;
     interest_rate := 0%Z;
     loan_tenure := 0%Z;
     project_lifetime := 1;
     discount_rate := 100%Z |}.

(** A project of zero years. *)
Definition zero_years : Inputs :=
  {| capacity := 2%Z;
     energy_generation := 1%Z;
     capex_per_mw := 10%Z;
     opex_percent := 100%Z;
     interest_rate := 0%Z;
     loan_tenure := 0%Z;
     project_lifetime := 0;
     discount_rate := 100%Z |}.

(** No capacity and no years at once. *)
Definition degenerate : Inputs :=
  {| capacity := 0%Z;
     energy_generation := 1%Z;
     capex_per_mw := 10%Z;
     opex_percent := 100%Z;
     interest_rate := 0%Z;
     loan_tenure := 0%Z;
     project_lifetime := 0;
     discount_rate := 100%Z |}.

(** ** The amortizing payment

    [calculateEMI] is defined beside [calculateEMI_likeExcel]; its call in
    [calculateLCOE] is commented out. *)



(** ** Parameter sweeps of the range charts (range-charts.js) *)

(** The field a sweep overrides, [param_key]. The range charts pass
    ['capex_per_mw'], ['energy_generation'] and ['discount_rate']; the
    keys here are the fields that hold a number. *)
Inductive ParamKey : Type :=
| key_capacity
| key_energy_generation
| key_capex_per_mw
| key_opex_percent
| key_interest_rate
| key_loan_tenure
| key_discount_rate.

(** [{ ...base_inputs, [param_key]: value }] *)
Definition with_param (base_inputs : Inputs) (param_key : ParamKey)
  (value : number) : Inputs :=
  {| capacity :=
       match param_key with
       | key_capacity => value
       | _ => capacity base_inputs
       end;
     energy_generation :=
       match param_key with
       | key_energy_generation => value
       | _ => energy_generation base_inputs
       end;
     capex_per_mw :=
       match param_key with
       | key_capex_per_mw => value
       | _ => capex_per_mw base_inputs
       end;
     opex_percent :=
       match param_key with
       | key_opex_percent => value
       | _ => opex_percent base_inputs
       end;
     interest_rate :=
       match param_key with
       | key_interest_rate => value
       | _ => interest_rate base_inputs
       end;
     loan_tenure :=
       match param_key with
       | key_loan_tenure => value
       | _ => loan_tenure base_inputs
       end;
     project_lifetime := project_lifetime base_inputs;
     discount_rate :=
       match param_key with
       | key_discount_rate => value
       | _ => discount_rate base_inputs
       end |}.

Record RangePoint : Type := mkRangePoint {
  rp_value : number;
  rp_lcoe_kwh : number;
  rp_lcoe_mwh : number
}.

(** [for (let value of param_range) { ... lcoe_values.push(...) }] *)
Fixpoint range_loop (base_inputs : Inputs) (param_key : ParamKey)
  (param_range : list number) (lcoe_values : list RangePoint)
  : list RangePoint :=
  match param_range with
  | [] => lcoe_values
  | value :: rest =>
      let inputs := with_param base_inputs param_key value in
      let result := calculateLCOE inputs in
      range_loop base_inputs param_key rest
        (lcoe_values ++
           [{| rp_value := value;
               rp_lcoe_kwh := lcoe_kwh result;
               rp_lcoe_mwh := lcoe_mwh result |}])
  end.

Definition generateParameterRange (base_inputs : Inputs)
  (param_key : ParamKey) (param_range : list number) : list RangePoint :=
  range_loop base_inputs param_key param_range [].

(** The point a range sweep records for [value]. *)
Definition range_point_at (base_inputs : Inputs) (param_key : ParamKey)
  (value : number) : RangePoint :=
  let result := calculateLCOE (with_param base_inputs param_key value) in
  {| rp_value := value;
     rp_lcoe_kwh := lcoe_kwh result;
     rp_lcoe_mwh := lcoe_mwh result |}.

(** * Properties *)

(** ** The loops *)

Section ForLoop.
Context {State : Type}.
Variable body : nat -> State -> State.

(** The last iteration, peeled off. *)
Lemma for_loop_last (n i : nat) (s : State) :
  for_loop body (S n) i s = body (i + n)%nat (for_loop body n i s).
Proof.
  revert i s. induction n as [|n IH]; intros i s.
  - simpl. now rewrite Nat.add_0_r.
  - change (for_loop body (S (S n)) i s)
      with (for_loop body (S n) (S i) (body i s)).
    rewrite IH. simpl. now rewrite Nat.add_succ_r.
Qed.

(** The first iteration, as the loop runs it. *)
Lemma for_loop_first (n i : nat) (s : State) :
  for_loop body (S n) i s
  = for_loop body n (S i) (body i s).
Proof. reflexivity. Qed.

(** A loop whose counter starts one later. *)
Lemma for_loop_shift (n i : nat) (s : State) :
  for_loop body n (S i) s
  = for_loop (fun k => body (S k)) n i s.
Proof.
  revert i s. induction n as [|n IH]; intros i s; simpl; [reflexivity|].
  apply IH.
Qed.
End ForLoop.

(** Two loops over the same range, whose states are related at the start
    and whose bodies keep them related, end in related states. *)
Lemma for_loop_rel {A B : Type} (R : A -> B -> Prop)
  (body : nat -> A -> A) (body' : nat -> B -> B) (n i : nat) (s : A) (t : B) :
  R s t ->
  (forall k s t, (i <= k < i + n)%nat -> R s t -> R (body k s) (body' k t)) ->
  R (for_loop body n i s) (for_loop body' n i t).
Proof.
  revert i s t. induction n as [|n IH]; intros i s t Hst Hbody; simpl.
  - exact Hst.
  - apply IH.
    + apply Hbody; [lia | exact Hst].
    + intros k s' t' Hk. apply Hbody. lia.
Qed.

Lemma for_loop_sum (f : nat -> number) (n : nat) :
  for_loop (fun i total => total + f i) n 0 (0%Z : number) = sum_upto f n.
Proof.
  induction n as [|n IH]; [reflexivity|].
  rewrite for_loop_last, IH. reflexivity.
Qed.

Lemma for_loop_push {A : Type} (f : nat -> A) (n i : nat) (l : list A) :
  for_loop (fun year cash_flows => cash_flows ++ [f year]) n i l
  = l ++ map f (seq i n).
Proof.
  revert i l. induction n as [|n IH]; intros i l; simpl.
  - now rewrite app_nil_r.
  - rewrite IH, <- app_assoc. reflexivity.
Qed.

(** ** What [calculateLCOE] returns, field by field *)

Lemma build_cash_flows_map (annual_opex annual_emi loan_tenure : number)
  (project_lifetime : Z) :
  build_cash_flows annual_opex annual_emi loan_tenure project_lifetime
  = map (fun year =>
           om_year annual_opex year + emi_year annual_emi loan_tenure year)
      (seq 0 (Z.to_nat project_lifetime)).
Proof. unfold build_cash_flows. now rewrite for_loop_push. Qed.

(** The array in the result is the one [calculateNPVlikeExcel] left
    behind: the leading zero, then the flows of Step 5. *)
Lemma cash_flows_returned (inputs : Inputs) :
  cash_flows (calculateLCOE inputs)
  = (0%Z : number)
      :: map (annual_cash_flow inputs)
           (seq 0 (Z.to_nat (project_lifetime inputs))).
Proof.
  change (cash_flows (calculateLCOE inputs))
    with ((0%Z : number)
            :: build_cash_flows (annual_opex (calculateLCOE inputs))
                 (annual_emi (calculateLCOE inputs)) (loan_tenure inputs)
                 (project_lifetime inputs)).
  rewrite build_cash_flows_map. reflexivity.
Qed.

Lemma cash_flows_returned_length (inputs : Inputs) :
  length (cash_flows (calculateLCOE inputs))
  = S (Z.to_nat (project_lifetime inputs)).
Proof.
  rewrite cash_flows_returned. simpl.
  now rewrite length_map, length_seq.
Qed.

Lemma cash_flows_returned_head (inputs : Inputs) :
  index (cash_flows (calculateLCOE inputs)) 0 = (0%Z : number).
Proof. now rewrite cash_flows_returned. Qed.

Lemma cash_flows_returned_tail (inputs : Inputs) (year : nat) :
  (year < Z.to_nat (project_lifetime inputs))%nat ->
  index (cash_flows (calculateLCOE inputs)) (S year)
  = annual_cash_flow inputs year.
Proof.
  intros Hy. rewrite cash_flows_returned. unfold index. simpl.
  rewrite nth_indep with (d' := annual_cash_flow inputs 0%nat)
    by now rewrite length_map, length_seq.
  rewrite map_nth, seq_nth by exact Hy. reflexivity.
Qed.

Lemma total_energy_sum (inputs : Inputs) :
  total_energy (calculateLCOE inputs)
  = sum_upto
      (fun i =>
         (energy_generation inputs / capacity inputs)
         * pow (1%Z - Fin (5 # 1000)) i)
      (Z.to_nat (project_lifetime inputs)).
Proof.
  unfold calculateLCOE, calculateNPVlikeExcel; simpl total_energy.
  unfold calculateTotalEnergy. now rewrite for_loop_sum.
Qed.

(** ** Arithmetic of [number] *)

Lemma same_refl (x : number) : x ~= x.
Proof. destruct x; simpl; auto. reflexivity. Qed.

Lemma same_sym (x y : number) : x ~= y -> y ~= x.
Proof. destruct x, y; simpl; auto. intros H. now symmetry. Qed.

Lemma same_trans (x y z : number) : x ~= y -> y ~= z -> x ~= z.
Proof.
  destruct x, y, z; simpl; auto; try contradiction.
  intros H1 H2. now rewrite H1.
Qed.

Lemma add_same (x x' y y' : number) :
  x ~= x' -> y ~= y' -> x + y ~= x' + y'.
Proof.
  destruct x, x', y, y'; simpl; auto; try contradiction.
  intros H1 H2. now rewrite H1, H2.
Qed.

Lemma div_finite (a b : Q) : ~ (b == 0)%Q -> Fin a / Fin b = Fin (a / b)%Q.
Proof.
  intros Hb. simpl. destruct (Qeq_bool b 0) eqn:E; [|reflexivity].
  apply Qeq_bool_eq in E. contradiction.
Qed.

Lemma pow_finite (a : Q) (n : nat) : pow (Fin a) n = Fin (a ^ Z.of_nat n)%Q.
Proof. destruct n; reflexivity. Qed.

(** ** Capital cost and financing *)

(** C4. For every input record the [capex] of the result is
    [capex_per_mw / capacity]: the rate divided by the capacity. It is not
    their product: at capacity -2 and rate 10 the two differ. *)
Theorem C4_capex_is_rate_over_capacity :
  (forall inputs : Inputs,
      capex (calculateLCOE inputs) = capex_per_mw inputs / capacity inputs)
  /\ ~ (capex (calculateLCOE negative_capacity)
        ~= capex_per_mw negative_capacity * capacity negative_capacity).
Proof.
  split.
  - intros inputs. reflexivity.
  - vm_compute. discriminate.
Qed.



(** ** Energy *)

(** C5. For every input record with lifetime [L] the [total_energy] of the
    result is the sum over [i = 0 .. L-1] of
    [(energy_generation / capacity) * (1 - 0.005)^i]. *)
Theorem C5_total_energy_degraded_sum (inputs : Inputs) :
  total_energy (calculateLCOE inputs)
  = sum_upto
      (fun i =>
         (energy_generation inputs / capacity inputs)
         * pow (1%Z - Fin (5 # 1000)) i)
      (Z.to_nat (project_lifetime inputs)).
Proof.
  unfold calculateLCOE, calculateNPVlikeExcel; simpl total_energy.
  unfold calculateTotalEnergy, CONSTANTS.degradation_rate.
  induction (Z.to_nat (project_lifetime inputs)) as [|n IH]; [reflexivity|].
  rewrite for_loop_last, IH. reflexivity.
Qed.

(** ** Levelized cost and utilization *)

Lemma lcoe_mwh_guard (inputs : Inputs) :
  let r := calculateLCOE inputs in
  lcoe_mwh r
  = if total_energy r >? 0%Z
    then (capex r + npv_opex r) / total_energy r
    else 0%Z.
Proof. reflexivity. Qed.

(** C8. Whenever the total energy is not greater than 0 (also when it is
    [NaN]), both levelized costs of the result are 0; and in every result
    [lcoe_kwh] is [lcoe_mwh / 1000]. *)
Theorem C8_zero_energy_sentinel (inputs : Inputs) :
  let r := calculateLCOE inputs in
  ((total_energy r >? 0%Z) = false ->
   lcoe_mwh r = (0%Z : number) /\ lcoe_kwh r ~= (0%Z : number))
  /\ lcoe_kwh r = lcoe_mwh r / 1000%Z.
Proof.
  intros r. split; [|reflexivity].
  intros H. assert (Hm : lcoe_mwh r = (0%Z : number)).
  { subst r. rewrite lcoe_mwh_guard. now rewrite H. }
  split; [exact Hm|].
  change (lcoe_kwh r) with (lcoe_mwh r / 1000%Z). rewrite Hm.
  vm_compute. reflexivity.
Qed.

Lemma C8_zero_energy_sentinel_witness :
  (total_energy (calculateLCOE zero_years) >? 0%Z) = false
  /\ lcoe_mwh (calculateLCOE zero_years) = (0%Z : number)
  /\ lcoe_kwh (calculateLCOE zero_years) ~= (0%Z : number).
Proof.
  assert (H : (total_energy (calculateLCOE zero_years) >? 0%Z) = false)
    by reflexivity.
  split; [exact H|].
  exact (proj1 (C8_zero_energy_sentinel zero_years) H).
Defined.

(** C10. [calculateCUE] returns 0 when the capacity equals 0 and
    [annual_energy / (capacity * 8760)] otherwise; for finite arguments
    with a capacity other than 0 that quotient is a finite value, so no
    division by zero takes place. The [cue] of a result is
    [calculateCUE energy_generation capacity]. *)
Theorem C10_capacity_utilization_total :
  (forall inputs : Inputs,
      cue (calculateLCOE inputs)
      = calculateCUE (energy_generation inputs) (capacity inputs))
  /\ forall annual_energy capacity : number,
      ((capacity === 0%Z) = true ->
       calculateCUE annual_energy capacity = (0%Z : number))
      /\ ((capacity === 0%Z) = false ->
          calculateCUE annual_energy capacity
          = annual_energy / (capacity * 8760%Z))
      /\ (forall a c : Q,
             annual_energy = Fin a -> capacity = Fin c -> ~ (c == 0)%Q ->
             calculateCUE annual_energy capacity
             = Fin (a / (c * inject_Z 8760))%Q).
Proof.
  split; [intros inputs; reflexivity|].
  intros annual_energy capacity. split; [|split].
  - intros H. unfold calculateCUE. now rewrite H.
  - intros H. unfold calculateCUE. now rewrite H.
  - intros a c -> -> Hc. unfold calculateCUE.
    assert (E : (Fin c === 0%Z) = false).
    { simpl. destruct (Qeq_bool c (inject_Z 0)) eqn:E; [|reflexivity].
      apply Qeq_bool_eq in E. contradiction. }
    rewrite E. apply div_finite.
    intros H. apply Hc.
    apply Qmult_integral in H. destruct H as [H|H]; [exact H|discriminate H].
Qed.

Lemma C10_capacity_utilization_total_witness :
  calculateCUE 5%Z 0%Z = (0%Z : number)
  /\ calculateCUE 8760%Z 2%Z = 8760%Z / (2%Z * 8760%Z)
  /\ calculateCUE 8760%Z 2%Z
     = Fin (inject_Z 8760 / (inject_Z 2 * inject_Z 8760))%Q.
Proof.
  pose proof (proj2 C10_capacity_utilization_total 5%Z 0%Z) as H0.
  pose proof (proj2 C10_capacity_utilization_total 8760%Z 2%Z) as H2.
  split; [|split].
  - apply (proj1 H0). reflexivity.
  - apply (proj1 (proj2 H2)). reflexivity.
  - apply (proj2 (proj2 H2)).
    + reflexivity.
    + reflexivity.
    + intros H. discriminate H.
Defined.

(** ** The cash-flow array of the result *)

(** C2. The [cash_flows] array of a result has one entry more than the
    project has years. With a lifetime of 20 years (scenario A) it has 21
    entries: the 20 flows pushed by Step 5 and, in front of them, the zero
    that [calculateNPVlikeExcel] inserts into the array it is given. *)
Theorem C2_cash_flows_length_scenario_A :
  (forall inputs : Inputs,
      length (cash_flows (calculateLCOE inputs))
      = S (Z.to_nat (project_lifetime inputs)))
  /\ project_lifetime scenario_A = 20%Z
  /\ length (build_cash_flows
               (annual_opex (calculateLCOE scenario_A))
               (annual_emi (calculateLCOE scenario_A))
               (loan_tenure scenario_A) (project_lifetime scenario_A))
     = 20%nat
  /\ length (cash_flows (calculateLCOE scenario_A)) = 21%nat.
Proof.
  split; [apply cash_flows_returned_length|].
  split; [reflexivity|]. split.
  - rewrite build_cash_flows_map, length_map, length_seq. reflexivity.
  - rewrite cash_flows_returned_length. reflexivity.
Qed.

(** C7. With a loan over the first of two years, entry 1 of the
    [cash_flows] array of the result is the flow of year 0, payment
    included (6), not the flow of year 1 (4.2, no payment); entry 0 is the
    inserted zero, not the flow of year 0. *)
Theorem C7_returned_flows_off_by_one :
  let r := calculateLCOE two_years in
  ((loan_tenure two_years <=? 1%Z) = true
   /\ (1 < project_lifetime two_years)%Z)
  /\ emi_year (annual_emi r) (loan_tenure two_years) 1 = (0%Z : number)
  /\ annual_cash_flow two_years 1 ~= Fin (42 # 10)
  /\ annual_cash_flow two_years 0 ~= 6%Z
  /\ index (cash_flows r) 1 = annual_cash_flow two_years 0
  /\ ~ index (cash_flows r) 1 ~= annual_cash_flow two_years 1
  /\ index (cash_flows r) 0 = (0%Z : number)
  /\ ~ index (cash_flows r) 0 ~= annual_cash_flow two_years 0.
Proof.
  intros r. split; [split; [reflexivity | simpl; lia]|].
  split; [reflexivity|].
  split; [vm_compute; reflexivity|]. split; [vm_compute; reflexivity|].
  split; [apply (cash_flows_returned_tail two_years 0); simpl; lia|].
  split; [vm_compute; discriminate|].
  split; [apply cash_flows_returned_head|].
  vm_compute; discriminate.
Qed.

(** ** Validation *)

(** C3 fails: with capacity -2, and with a lifetime of 0 years, the
    result holds derived quantities (CAPEX 10 / -2 = -5, and 10 / 2 = 5):
    it is not a result without any. *)
Lemma C3_counterexample :
  (non_positive (capacity negative_capacity)
   /\ capex (calculateLCOE negative_capacity) ~= (-5)%Z
   /\ ~ no_derived_quantity (calculateLCOE negative_capacity))
  /\ ((project_lifetime zero_years <= 0)%Z
      /\ capex (calculateLCOE zero_years) ~= 5%Z
      /\ ~ no_derived_quantity (calculateLCOE zero_years))
  /\ ~ (forall inputs : Inputs,
          non_positive (capacity inputs) \/ (project_lifetime inputs <= 0)%Z ->
          no_derived_quantity (calculateLCOE inputs)).
Proof.
  assert (Hc : non_positive (capacity negative_capacity)) by reflexivity.
  assert (Hn : ~ no_derived_quantity (calculateLCOE negative_capacity)).
  { intros H. apply Forall_inv in H. apply H.
    eexists. vm_compute. reflexivity. }
  assert (Hz : ~ no_derived_quantity (calculateLCOE zero_years)).
  { intros H. apply Forall_inv in H. apply H.
    eexists. vm_compute. reflexivity. }
  split; [|split].
  - split; [exact Hc|]. split; [vm_compute; reflexivity | exact Hn].
  - split; [simpl; lia|]. split; [vm_compute; reflexivity | exact Hz].
  - intros H. apply Hn. apply H. left. exact Hc.
Qed.

(** C3, as the code has it. There is no validation: for every record,
    whatever the capacity and the lifetime, [capex] is computed as
    [capex_per_mw / capacity]. The guards are sentinels: with a lifetime
    of 0 or less the two sums are 0 and both levelized costs are 0; with
    capacity 0 the utilization is 0. In both cases the result holds these
    values: it is not a result without any derived quantity. *)
Theorem C3_no_validation_sentinels (inputs : Inputs) :
  let r := calculateLCOE inputs in
  capex r = capex_per_mw inputs / capacity inputs
  /\ ((project_lifetime inputs <= 0)%Z ->
      total_om r = (0%Z : number)
      /\ total_energy r = (0%Z : number)
      /\ lcoe_mwh r = (0%Z : number)
      /\ lcoe_kwh r ~= (0%Z : number))
  /\ ((capacity inputs === 0%Z) = true -> cue r = (0%Z : number))
  /\ ((project_lifetime inputs <= 0)%Z
      \/ (capacity inputs === 0%Z) = true ->
      ~ no_derived_quantity r).
Proof.
  intros r.
  assert (HL : (project_lifetime inputs <= 0)%Z ->
               total_om r = (0%Z : number)
               /\ total_energy r = (0%Z : number)
               /\ lcoe_mwh r = (0%Z : number)
               /\ lcoe_kwh r ~= (0%Z : number)).
  { intros HL.
    assert (Hn : Z.to_nat (project_lifetime inputs) = 0%nat) by lia.
    assert (He : total_energy r = (0%Z : number)).
    { unfold r. rewrite total_energy_sum, Hn. reflexivity. }
    assert (Hm : lcoe_mwh r = (0%Z : number)).
    { pose proof (lcoe_mwh_guard inputs) as G. cbv zeta in G. fold r in G.
      rewrite G, He. reflexivity. }
    split; [|split; [exact He|split; [exact Hm|]]].
    - change (total_om r)
        with (calculateTotalOM (annual_opex r) (project_lifetime inputs)).
      unfold calculateTotalOM. rewrite Hn. reflexivity.
    - change (lcoe_kwh r) with (lcoe_mwh r / 1000%Z). rewrite Hm.
      vm_compute. reflexivity. }
  assert (Hc : (capacity inputs === 0%Z) = true -> cue r = (0%Z : number)).
  { intros H. change (cue r)
      with (calculateCUE (energy_generation inputs) (capacity inputs)).
    unfold calculateCUE. now rewrite H. }
  split; [reflexivity|]. split; [exact HL|]. split; [exact Hc|].
  intros [H|H] Hnone; unfold no_derived_quantity in Hnone;
    rewrite Forall_forall in Hnone.
  - apply (Hnone (lcoe_mwh r)); [simpl; tauto|].
    exists (inject_Z 0). apply (HL H).
  - apply (Hnone (cue r)); [simpl; tauto|].
    exists (inject_Z 0). apply (Hc H).
Qed.

Lemma C3_no_validation_sentinels_witness :
  (project_lifetime degenerate <= 0)%Z
  /\ (capacity degenerate === 0%Z) = true
  /\ lcoe_mwh (calculateLCOE degenerate) = (0%Z : number)
  /\ cue (calculateLCOE degenerate) = (0%Z : number)
  /\ ~ no_derived_quantity (calculateLCOE degenerate).
Proof.
  assert (HL : (project_lifetime degenerate <= 0)%Z) by (simpl; lia).
  assert (Hc : (capacity degenerate === 0%Z) = true) by reflexivity.
  pose proof (C3_no_validation_sentinels degenerate) as H.
  cbv zeta in H.
  split; [exact HL|]. split; [exact Hc|]. split; [|split].
  - exact (proj1 (proj2 (proj2 (proj1 (proj2 H) HL)))).
  - exact (proj1 (proj2 (proj2 H)) Hc).
  - exact (proj2 (proj2 (proj2 H)) (or_introl HL)).
Defined.

(** ** Present value *)

(** Discounting an array that starts with the inserted zero: the flow
    [f k] stands at index [k + 1] and is divided by the power [k + 2]. *)
Lemma npv_loop_leading_zero (rate : number) (f : nat -> number) (n : nat) :
  (0%Z : number) / pow (1%Z + rate) 1 ~= (0%Z : number) ->
  npv_loop rate ((0%Z : number) :: map f (seq 0 n))
  ~= sum_upto (fun k => f k / pow (1%Z + rate) (k + 2)) n.
Proof.
  intros Hz. unfold npv_loop. rewrite <- for_loop_sum.
  change (length ((0%Z : number) :: map f (seq 0 n)))
    with (S (length (map f (seq 0 n)))).
  rewrite length_map, length_seq.
  rewrite for_loop_first, for_loop_shift.
  apply for_loop_rel; cbv beta.
  - change (index ((0%Z : number) :: map f (seq 0 n)) 0) with (0%Z : number).
    apply same_trans with (y := (0%Z : number) + (0%Z : number)).
    + apply add_same; [apply same_refl | exact Hz].
    + simpl. reflexivity.
  - intros k s t Hk Hst. apply add_same; [exact Hst|].
    change (index ((0%Z : number) :: map f (seq 0 n)) (S k))
      with (nth k (map f (seq 0 n)) NaN).
    rewrite nth_indep with (d' := f 0%nat)
      by (rewrite length_map, length_seq; lia).
    rewrite map_nth, seq_nth by lia.
    replace (S k + 1)%nat with (k + 2)%nat by lia.
    apply same_refl.
Qed.

Lemma npv_opex_loop (inputs : Inputs) :
  npv_opex (calculateLCOE inputs)
  = npv_loop (discount_rate inputs / 100%Z)
      ((0%Z : number)
         :: map (annual_cash_flow inputs)
              (seq 0 (Z.to_nat (project_lifetime inputs)))).
Proof.
  change (npv_opex (calculateLCOE inputs))
    with (npv_loop (discount_rate inputs / 100%Z)
            ((0%Z : number)
               :: build_cash_flows (annual_opex (calculateLCOE inputs))
                    (annual_emi (calculateLCOE inputs)) (loan_tenure inputs)
                    (project_lifetime inputs))).
  rewrite build_cash_flows_map. reflexivity.
Qed.

(** C1 fails: for one year with a flow of 4 discounted at 100% the result
    has [npv_opex] 1, that is 4 / 2^2, where the end-of-year-1 convention
    gives 4 / 2^1 = 2. *)
Lemma C1_counterexample :
  npv_opex (calculateLCOE one_year) ~= 1%Z
  /\ discounted_sum one_year 1 ~= 2%Z
  /\ ~ npv_opex (calculateLCOE one_year) ~= discounted_sum one_year 1.
Proof.
  split; [vm_compute; reflexivity|]. split; [vm_compute; reflexivity|].
  vm_compute. discriminate.
Qed.

(** C1, as the code has it. For a finite discount rate other than -100,
    [npv_opex] is the sum over the years [k = 0 .. L-1] of the flow of year
    [k] divided by [(1 + discount_rate/100)^(k+2)]: the inserted zero takes
    the first period and the first real flow is discounted over two. *)
Theorem C1_npv_discounts_from_year_two (inputs : Inputs) (d : Q) :
  discount_rate inputs = Fin d ->
  ~ (d == - (100))%Q ->
  npv_opex (calculateLCOE inputs) ~= discounted_sum inputs 2.
Proof.
  intros Hd Hne. rewrite npv_opex_loop. unfold discounted_sum.
  apply npv_loop_leading_zero.
  rewrite Hd. simpl.
  destruct (Qeq_bool _ 0) eqn:E.
  - exfalso. apply Qeq_bool_eq in E. apply Hne.
    assert (H : (d == (inject_Z 1 + d / inject_Z 100) * inject_Z 100
                      - inject_Z 100)%Q) by field.
    rewrite H, E. reflexivity.
  - simpl. reflexivity.
Qed.

Lemma C1_npv_discounts_from_year_two_witness :
  discount_rate one_year = Fin (inject_Z 100)
  /\ ~ (inject_Z 100 == - (100))%Q
  /\ npv_opex (calculateLCOE one_year) ~= discounted_sum one_year 2.
Proof.
  assert (Hd : discount_rate one_year = Fin (inject_Z 100)) by reflexivity.
  assert (Hne : ~ (inject_Z 100 == - (100))%Q) by (intros H; discriminate H).
  split; [exact Hd|]. split; [exact Hne|].
  exact (C1_npv_discounts_from_year_two one_year (inject_Z 100) Hd Hne).
Defined.

(** ** Discounting at a higher rate *)

Lemma Qpower_nat_succ (a : Q) (n : nat) :
  (a ^ Z.of_nat (S n) == a * a ^ Z.of_nat n)%Q.
Proof.
  rewrite Nat2Z.inj_succ. unfold Z.succ.
  rewrite Qpower_plus' by lia. rewrite Qpower_1_r. ring.
Qed.

Lemma Qpower_nat_le (a b : Q) (n : nat) :
  (0 <= a)%Q -> (a <= b)%Q -> (a ^ Z.of_nat n <= b ^ Z.of_nat n)%Q.
Proof.
  intros Ha Hab. induction n as [|n IH].
  - simpl. apply Qle_refl.
  - rewrite !Qpower_nat_succ.
    apply Qmult_le_compat_nonneg; split; auto.
    apply Qpower_0_le. exact Ha.
Qed.

Lemma Qinv_le_contravar (a b : Q) : (0 < a)%Q -> (a <= b)%Q -> (/ b <= / a)%Q.
Proof.
  intros Ha Hab. assert (Hb : (0 < b)%Q) by lra.
  setoid_replace (/ b)%Q with (1 / b)%Q by (unfold Qdiv; ring).
  apply Qle_shift_div_r; [exact Hb|].
  setoid_replace 1%Q with (/ a * a)%Q at 1 by (field; lra).
  apply Qmult_le_l; [apply Qinv_lt_0_compat; exact Ha | exact Hab].
Qed.

(** One discounted flow: the larger base gives the smaller value. *)
Lemma discounted_flow_antitone (cf b1 b2 : Q) (n : nat) :
  (0 <= cf)%Q -> (0 < b1)%Q -> (b1 <= b2)%Q ->
  (cf / b2 ^ Z.of_nat n <= cf / b1 ^ Z.of_nat n)%Q.
Proof.
  intros Hcf Hb1 Hb. unfold Qdiv. rewrite <- !Qinv_power.
  rewrite (Qmult_comm cf), (Qmult_comm cf).
  apply Qmult_le_compat_r; [|exact Hcf].
  apply Qpower_nat_le.
  - apply Qinv_le_0_compat. lra.
  - apply Qinv_le_contravar; assumption.
Qed.

Lemma one_plus_finite (r : Q) : 1%Z + Fin r = Fin (inject_Z 1 + r)%Q.
Proof. reflexivity. Qed.

(** The present value of flows that are finite and not negative does not
    go up when the rate does. *)
Lemma npv_loop_antitone (r1 r2 : Q) (flows : list number) :
  (0 < inject_Z 1 + r1)%Q -> (r1 <= r2)%Q ->
  Forall finite_nonneg flows ->
  finite_ge (npv_loop (Fin r1) flows) (npv_loop (Fin r2) flows).
Proof.
  intros Hpos Hr Hflows. unfold npv_loop.
  apply for_loop_rel with (R := finite_ge).
  - exists 0%Q, 0%Q. repeat split; try reflexivity. apply Qle_refl.
  - intros k s t Hk (a & b & -> & -> & Hba). cbv beta.
    assert (Hin : finite_nonneg (index flows k)).
    { rewrite Forall_forall in Hflows. apply Hflows.
      unfold index. apply nth_In. lia. }
    destruct Hin as (cf & -> & Hcf).
    rewrite !one_plus_finite, !pow_finite.
    assert (H1 : (0 < (inject_Z 1 + r1) ^ Z.of_nat (k + 1))%Q)
      by (apply Qpower_0_lt; exact Hpos).
    assert (H2 : (0 < (inject_Z 1 + r2) ^ Z.of_nat (k + 1))%Q)
      by (apply Qpower_0_lt; lra).
    rewrite !div_finite by lra.
    eexists; eexists. split; [reflexivity|]. split; [reflexivity|].
    apply Qplus_le_compat; [exact Hba|].
    apply discounted_flow_antitone; [exact Hcf | exact Hpos | lra].
Qed.

Section Sweep.

Variable base_inputs : Inputs.
Variables c k o ir : Q.
Hypothesis capacity_positive :
  capacity base_inputs = Fin c /\ (0 < c)%Q.
Hypothesis capex_per_mw_nonneg :
  capex_per_mw base_inputs = Fin k /\ (0 <= k)%Q.
Hypothesis opex_percent_nonneg :
  opex_percent base_inputs = Fin o /\ (0 <= o)%Q.
Hypothesis interest_rate_nonneg :
  interest_rate base_inputs = Fin ir /\ (0 <= ir)%Q.

Lemma capex_finite_nonneg (rate : number) :
  capex (calculateLCOE (with_discount_rate base_inputs rate)) = Fin (k / c)%Q
  /\ (0 <= k / c)%Q.
Proof.
  destruct capacity_positive as [Hc Hc0].
  destruct capex_per_mw_nonneg as [Hk Hk0].
  split.
  - change (capex (calculateLCOE (with_discount_rate base_inputs rate)))
      with (capex_per_mw base_inputs / capacity base_inputs).
    rewrite Hc, Hk. apply div_finite. lra.
  - apply Qle_shift_div_l; [exact Hc0 | lra].
Qed.

Lemma annual_cash_flow_finite_nonneg (rate : number) (year : nat) :
  finite_nonneg
    (annual_cash_flow (with_discount_rate base_inputs rate) year).
Proof.
  destruct (capex_finite_nonneg rate) as [Hcapex Hcapex0].
  destruct opex_percent_nonneg as [Ho Ho0].
  destruct interest_rate_nonneg as [Hi Hi0].
  set (inputs := with_discount_rate base_inputs rate) in *.
  assert (Hopex : annual_opex (calculateLCOE inputs)
                  = Fin (k / c * o / inject_Z 100)%Q).
  { change (annual_opex (calculateLCOE inputs))
      with ((capex (calculateLCOE inputs) * opex_percent base_inputs)
            / 100%Z).
    rewrite Hcapex, Ho. reflexivity. }
  assert (Hemi : annual_emi (calculateLCOE inputs)
                 = Fin (k / c * (ir / inject_Z 100))%Q).
  { change (annual_emi (calculateLCOE inputs))
      with (capex (calculateLCOE inputs)
            * (interest_rate base_inputs / 100%Z)).
    rewrite Hcapex, Hi. reflexivity. }
  assert (H100 : (0 < inject_Z 100)%Q) by reflexivity.
  assert (Hopex0 : (0 <= k / c * o / inject_Z 100)%Q).
  { apply Qle_shift_div_l; [exact H100|].
    rewrite Qmult_0_l. apply Qmult_le_0_compat; assumption. }
  assert (Hemi0 : (0 <= k / c * (ir / inject_Z 100))%Q).
  { apply Qmult_le_0_compat; [assumption|].
    apply Qle_shift_div_l; [exact H100 | lra]. }
  unfold annual_cash_flow, om_year, emi_year.
  rewrite Hopex, Hemi.
  change (1%Z + CONSTANTS.opex_escalation_rate)
    with (Fin (inject_Z 1 + (5 # 100))%Q).
  rewrite pow_finite.
  assert (Hpow : (0 <= (inject_Z 1 + (5 # 100)) ^ Z.of_nat year)%Q).
  { apply Qpower_0_le. discriminate. }
  destruct (of_Z (Z.of_nat year) <? loan_tenure inputs);
    (eexists; split; [reflexivity|]).
  - apply (Qplus_le_compat 0 _ 0); [|exact Hemi0].
    apply Qmult_le_0_compat; assumption.
  - apply (Qplus_le_compat 0 _ 0); [|apply Qle_refl].
    apply Qmult_le_0_compat; assumption.
Qed.

Lemma npv_opex_antitone (d1 d2 : Q) :
  (- (100) < d1)%Q -> (d1 <= d2)%Q ->
  finite_ge
    (npv_opex (calculateLCOE (with_discount_rate base_inputs (Fin d1))))
    (npv_opex (calculateLCOE (with_discount_rate base_inputs (Fin d2)))).
Proof.
  intros Hd1 Hd. rewrite !npv_opex_loop.
  change (discount_rate (with_discount_rate base_inputs (Fin d1)) / 100%Z)
    with (Fin (d1 / inject_Z 100)%Q).
  change (discount_rate (with_discount_rate base_inputs (Fin d2)) / 100%Z)
    with (Fin (d2 / inject_Z 100)%Q).
  change (project_lifetime (with_discount_rate base_inputs (Fin d1)))
    with (project_lifetime base_inputs).
  change (project_lifetime (with_discount_rate base_inputs (Fin d2)))
    with (project_lifetime base_inputs).
  change (annual_cash_flow (with_discount_rate base_inputs (Fin d2)))
    with (annual_cash_flow (with_discount_rate base_inputs (Fin d1))).
  assert (H100 : (0 < inject_Z 100)%Q) by reflexivity.
  apply npv_loop_antitone.
  - assert (H : (- (1) < d1 / inject_Z 100)%Q).
    { apply Qlt_shift_div_l; [exact H100|]. exact Hd1. }
    change (inject_Z 1) with 1%Q. lra.
  - unfold Qdiv. apply Qmult_le_compat_r; [exact Hd|].
    apply Qinv_le_0_compat. discriminate.
  - constructor.
    + exists 0%Q. split; [reflexivity | apply Qle_refl].
    + apply Forall_forall. intros x Hx. apply in_map_iff in Hx.
      destruct Hx as (year & <- & _).
      apply annual_cash_flow_finite_nonneg.
Qed.

(** The levelized cost does not go up when the discount rate does. *)
Lemma lcoe_kwh_antitone (d1 d2 : Q) :
  (- (100) < d1)%Q -> (d1 <= d2)%Q ->
  (lcoe_kwh (calculateLCOE (with_discount_rate base_inputs (Fin d2)))
   <=? lcoe_kwh (calculateLCOE (with_discount_rate base_inputs (Fin d1))))
  = true.
Proof.
  intros Hd1 Hd.
  destruct (npv_opex_antitone d1 d2 Hd1 Hd) as (a & b & Ha & Hb & Hba).
  destruct (capex_finite_nonneg (Fin d1)) as [Hc1 _].
  destruct (capex_finite_nonneg (Fin d2)) as [Hc2 _].
  set (r1 := calculateLCOE (with_discount_rate base_inputs (Fin d1))) in *.
  set (r2 := calculateLCOE (with_discount_rate base_inputs (Fin d2))) in *.
  change (lcoe_kwh r1) with (lcoe_mwh r1 / 1000%Z).
  change (lcoe_kwh r2) with (lcoe_mwh r2 / 1000%Z).
  pose proof (lcoe_mwh_guard (with_discount_rate base_inputs (Fin d1))) as G1.
  pose proof (lcoe_mwh_guard (with_discount_rate base_inputs (Fin d2))) as G2.
  cbv zeta in G1, G2. fold r1 in G1. fold r2 in G2.
  change (total_energy r2) with (total_energy r1) in G2.
  rewrite G1, G2, Ha, Hb, Hc1, Hc2.
  destruct (total_energy r1) as [t| | |] eqn:Ht; try reflexivity.
  destruct (Fin t >? 0%Z) eqn:Hgt; [|reflexivity].
  assert (Ht0 : (0 < t)%Q).
  { unfold gtb, ltb in Hgt. apply negb_true_iff in Hgt.
    destruct (Qlt_le_dec 0 t) as [H|H]; [exact H|].
    apply Qle_bool_iff in H. change (inject_Z 0) with 0%Q in Hgt.
    congruence. }
  change (Fin (k / c) + Fin a) with (Fin (k / c + a)%Q).
  change (Fin (k / c) + Fin b) with (Fin (k / c + b)%Q).
  rewrite !div_finite by lra.
  change (Fin ((k / c + b) / t) / 1000%Z)
    with (Fin ((k / c + b) / t / inject_Z 1000)%Q).
  change (Fin ((k / c + a) / t) / 1000%Z)
    with (Fin ((k / c + a) / t / inject_Z 1000)%Q).
  apply Qle_bool_iff. unfold Qdiv.
  apply Qmult_le_compat_r; [|apply Qinv_le_0_compat; discriminate].
  apply Qmult_le_compat_r; [|apply Qinv_le_0_compat; lra].
  lra.
Qed.
End Sweep.

(** ** The sweep over the discount rate *)

Lemma sweep_loop_rates (fuel : nat) (base_inputs : Inputs)
  (rate max_rate step : number) (results : list SensitivityPoint) :
  sweep_loop fuel base_inputs rate max_rate step results
  = option_map (fun rates => results ++ map (point_at base_inputs) rates)
      (sweep_rates fuel rate max_rate step).
Proof.
  revert rate results. induction fuel as [|fuel IH]; intros rate results.
  - reflexivity.
  - simpl. destruct (rate <=? max_rate).
    + rewrite IH.
      destruct (sweep_rates fuel (rate + step) max_rate step) as [rates|];
        simpl; [|reflexivity].
      now rewrite <- app_assoc.
    + simpl. now rewrite app_nil_r.
Qed.

(** More fuel does not change a sweep that ended. *)
Lemma sweep_rates_more_fuel (fuel extra : nat) (rate max_rate step : number)
  (rates : list number) :
  sweep_rates fuel rate max_rate step = Some rates ->
  sweep_rates (fuel + extra) rate max_rate step = Some rates.
Proof.
  revert rate rates. induction fuel as [|fuel IH]; intros rate rates.
  - discriminate.
  - simpl. destruct (rate <=? max_rate); [|auto].
    destruct (sweep_rates fuel (rate + step) max_rate step) as [l|] eqn:E;
      [|discriminate].
    intros H. now rewrite (IH _ _ E).
Qed.

Lemma default_sweep_rates (fuel : nat) :
  (22 <= fuel)%nat ->
  sweep_rates fuel default_min_rate default_max_rate default_step
  = Some (map Fin default_rates).
Proof.
  intros Hf. replace fuel with (22 + (fuel - 22))%nat by lia.
  apply sweep_rates_more_fuel. vm_compute. reflexivity.
Qed.

(** The default rates are 5, 5.5, ..., 15. *)
Lemma default_rates_values :
  Forall2 Qeq default_rates
    (map (fun i => 5 + inject_Z (Z.of_nat i) * (1 # 2))%Q (seq 0 21)).
Proof. vm_compute. repeat (constructor; [reflexivity|]). constructor. Qed.

Lemma default_rates_sorted :
  StronglySorted Qle default_rates /\ Forall (Qlt (- (100))) default_rates.
Proof.
  unfold default_rates. split.
  - repeat (constructor; [|repeat (constructor; try discriminate)]).
    constructor.
  - repeat (constructor; try reflexivity).
Qed.

(** A function that reverses the order carries a sorted list of rates
    to a sequence that never goes up. *)
Lemma antitone_map_sorted (f : Q -> number) (P : Q -> Prop) (qs : list Q) :
  (forall a b, P a -> (a <= b)%Q -> (f b <=? f a) = true) ->
  Forall P qs -> StronglySorted Qle qs ->
  non_increasing (map f qs).
Proof.
  intros Hf HP Hs. unfold non_increasing.
  induction Hs as [|a l Hs IH Hal]; simpl.
  - constructor.
  - inversion HP as [|? ? Pa Pl]; subst. constructor; [apply IH; exact Pl|].
    apply Forall_forall. intros y Hy. apply in_map_iff in Hy.
    destruct Hy as (b & <- & Hb).
    rewrite Forall_forall in Hal. apply Hf; [exact Pa | apply Hal; exact Hb].
Qed.

(** C9 fails: for one year with CAPEX 4 and an operating cost of 4, the
    default sweep yields its 21 points and the levelized cost goes down
    from the first point (5%) to the second (5.5%). *)
Lemma C9_counterexample :
  exists points : list SensitivityPoint,
    generateSensitivityAnalysis 22 one_year default_min_rate default_max_rate
      default_step = Some points
    /\ length points = 21%nat
    /\ (index (map pt_lcoe_kwh points) 1 <? index (map pt_lcoe_kwh points) 0)
       = true
    /\ ~ non_decreasing (map pt_lcoe_kwh points).
Proof.
  unfold generateSensitivityAnalysis.
  rewrite sweep_loop_rates, default_sweep_rates by lia.
  eexists. split; [reflexivity|]. split; [reflexivity|].
  split; [vm_compute; reflexivity|].
  intros H. unfold non_decreasing in H.
  apply StronglySorted_inv in H. destruct H as [_ H].
  apply Forall_inv in H. vm_compute in H. discriminate H.
Qed.

(** C9, as the code has it. For a base record with a positive finite
    capacity and finite, non-negative CAPEX rate, OPEX percentage and
    interest rate, the default sweep (5% to 15% in steps of 0.5%) ends
    with enough fuel, yields 21 points at the rates 5, 5.5, ..., 15, each
    computed by [calculateLCOE] on the base record with that discount
    rate, and the levelized cost per kWh never goes up along them. *)
Theorem C9_sweep_non_increasing (base_inputs : Inputs) (c k o ir : Q)
  (fuel : nat) :
  capacity base_inputs = Fin c /\ (0 < c)%Q ->
  capex_per_mw base_inputs = Fin k /\ (0 <= k)%Q ->
  opex_percent base_inputs = Fin o /\ (0 <= o)%Q ->
  interest_rate base_inputs = Fin ir /\ (0 <= ir)%Q ->
  (22 <= fuel)%nat ->
  exists points : list SensitivityPoint,
    generateSensitivityAnalysis fuel base_inputs default_min_rate
      default_max_rate default_step = Some points
    /\ length points = 21%nat
    /\ points = map (point_at base_inputs) (map Fin default_rates)
    /\ non_increasing (map pt_lcoe_kwh points).
Proof.
  intros Hc Hk Ho Hi Hf.
  exists (map (point_at base_inputs) (map Fin default_rates)).
  split; [|split; [|split]].
  - unfold generateSensitivityAnalysis.
    now rewrite sweep_loop_rates, default_sweep_rates by exact Hf.
  - reflexivity.
  - reflexivity.
  - rewrite !map_map.
    apply antitone_map_sorted with (P := Qlt (- (100))).
    + intros a b Ha Hab. cbv beta. simpl pt_lcoe_kwh.
      apply (lcoe_kwh_antitone base_inputs c k o ir Hc Hk Ho Hi a b Ha Hab).
    + apply default_rates_sorted.
    + apply default_rates_sorted.
Qed.

Lemma C9_sweep_non_increasing_witness :
  exists points : list SensitivityPoint,
    generateSensitivityAnalysis 22 scenario_A default_min_rate
      default_max_rate default_step = Some points
    /\ length points = 21%nat
    /\ points = map (point_at scenario_A) (map Fin default_rates)
    /\ non_increasing (map pt_lcoe_kwh points).
Proof.
  apply (C9_sweep_non_increasing scenario_A
           (inject_Z 1) (inject_Z 34400000) (inject_Z 1) (825 # 100) 22).
  - split; reflexivity.
  - split; [reflexivity | discriminate].
  - split; [reflexivity | discriminate].
  - split; [reflexivity | discriminate].
  - lia.
Defined.

(** * Further properties of the engine *)

(** ** Sums *)

Lemma sum_upto_same (f g : nat -> number) (n : nat) :
  (forall i, (i < n)%nat -> f i ~= g i) ->
  sum_upto f n ~= sum_upto g n.
Proof.
  induction n as [|n IH]; intros H; [apply same_refl|].
  simpl. apply add_same; [apply IH; intros i Hi; apply H; lia | apply H; lia].
Qed.

(** ** Present value: the zero rate and the plain variant *)

Lemma div_by_one (x : number) (b : Q) : (b == 1)%Q -> x / Fin b ~= x.
Proof.
  intros Hb. destruct x as [q| | |]; simpl; auto.
  - destruct (Qeq_bool b 0) eqn:E.
    + apply Qeq_bool_eq in E. rewrite Hb in E. discriminate E.
    + simpl. rewrite Hb. field.
  - destruct (Qle_bool 0 b) eqn:E; [exact I|].
    assert (H : Qle_bool 0 b = true) by (apply Qle_bool_iff; rewrite Hb; discriminate).
    congruence.
  - destruct (Qle_bool 0 b) eqn:E; [exact I|].
    assert (H : Qle_bool 0 b = true) by (apply Qle_bool_iff; rewrite Hb; discriminate).
    congruence.
Qed.

Lemma rate_finite (d : Q) :
  1%Z + Fin d / 100%Z = Fin (inject_Z 1 + d / inject_Z 100)%Q.
Proof. reflexivity. Qed.

(** X4. At a discount rate of 0 the present value of costs is the plain
    sum of the annual cash flows of Step 5, for every input record: the
    inserted zero adds nothing and no flow is reduced. *)
Theorem npv_opex_zero_rate (inputs : Inputs) (d : Q) :
  discount_rate inputs = Fin d ->
  (d == 0)%Q ->
  npv_opex (calculateLCOE inputs)
  ~= sum_upto (annual_cash_flow inputs) (Z.to_nat (project_lifetime inputs)).
Proof.
  intros Hd Hz. rewrite npv_opex_loop, Hd.
  assert (Hb : forall n : nat,
             ((inject_Z 1 + d / inject_Z 100) ^ Z.of_nat n == 1)%Q).
  { intros n.
    assert (H1 : (inject_Z 1 + d / inject_Z 100 == 1)%Q)
      by (rewrite Hz; reflexivity).
    rewrite H1. apply Qpower_1. }
  eapply same_trans.
  - apply npv_loop_leading_zero.
    rewrite rate_finite, pow_finite. apply div_by_one. apply Hb.
  - apply sum_upto_same. intros i _. cbv beta.
    rewrite rate_finite, pow_finite. apply div_by_one. apply Hb.
Qed.

Lemma npv_opex_zero_rate_witness :
  npv_opex (calculateLCOE (with_discount_rate two_years 0%Z))
  ~= sum_upto (annual_cash_flow (with_discount_rate two_years 0%Z)) 2.
Proof.
  apply (npv_opex_zero_rate (with_discount_rate two_years 0%Z) (inject_Z 0)).
  - reflexivity.
  - reflexivity.
Defined.

Lemma index_map_finite (qs : list Q) (k : nat) :
  (k < length qs)%nat -> index (map Fin qs) k = Fin (nth k qs 0%Q).
Proof.
  intros Hk. unfold index.
  rewrite nth_indep with (d' := Fin 0) by now rewrite length_map.
  apply map_nth.
Qed.

Lemma npv_loop_plain (rate : number) (f : nat -> number) (n : nat) :
  npv_loop rate (map f (seq 0 n))
  = sum_upto (fun k => f k / pow (1%Z + rate) (k + 1)) n.
Proof.
  unfold npv_loop. rewrite <- for_loop_sum, length_map, length_seq.
  apply for_loop_rel; [reflexivity|].
  intros k s t Hk ->. unfold index.
  rewrite nth_indep with (d' := f 0%nat)
    by (rewrite length_map, length_seq; lia).
  now rewrite map_nth, seq_nth by lia.
Qed.

(** X6. [calculateNPV], applied to the flows Step 5 builds, discounts the
    flow of year [k] by [(1 + discount_rate/100)^(k+1)]: the first flow
    falls at the end of year 1. *)
Theorem calculateNPV_end_of_year_one (inputs : Inputs) :
  let r := calculateLCOE inputs in
  calculateNPV (discount_rate inputs)
    (build_cash_flows (annual_opex r) (annual_emi r) (loan_tenure inputs)
       (project_lifetime inputs))
  = discounted_sum inputs 1.
Proof.
  intros r. rewrite build_cash_flows_map. unfold calculateNPV.
  now rewrite npv_loop_plain.
Qed.

(** ** Flows that are not negative *)

Lemma npv_loop_finite_nonneg (r : Q) (flows : list number) :
  (0 < inject_Z 1 + r)%Q ->
  Forall finite_nonneg flows ->
  finite_nonneg (npv_loop (Fin r) flows).
Proof.
  intros Hpos Hflows. unfold npv_loop.
  apply (for_loop_rel (fun s (_ : unit) => finite_nonneg s) _ (fun _ u => u)
           (length flows) 0 (0%Z : number) tt).
  - exists 0%Q. split; [reflexivity | apply Qle_refl].
  - intros k s _ Hk (a & -> & Ha).
    assert (Hin : finite_nonneg (index flows k)).
    { rewrite Forall_forall in Hflows. apply Hflows.
      unfold index. apply nth_In. lia. }
    destruct Hin as (cf & -> & Hcf).
    rewrite one_plus_finite, pow_finite.
    assert (H1 : (0 < (inject_Z 1 + r) ^ Z.of_nat (k + 1))%Q)
      by (apply Qpower_0_lt; exact Hpos).
    rewrite div_finite by lra.
    eexists. split; [reflexivity|].
    apply (Qplus_le_compat 0 _ 0); [exact Ha|].
    apply Qle_shift_div_l; [exact H1 | lra].
Qed.

Lemma index_leading_zero (f : nat -> number) (n k : nat) :
  (k < S n)%nat ->
  index ((0%Z : number) :: map f (seq 0 n)) k
  = match k with
    | O => 0%Z
    | S j => f j
    end.
Proof.
  intros Hk. destruct k as [|j]; [reflexivity|].
  unfold index. simpl.
  rewrite nth_indep with (d' := f 0%nat)
    by (rewrite length_map, length_seq; lia).
  now rewrite map_nth, seq_nth by lia.
Qed.


(** ** The sweep loop for any bounds and step *)

Lemma leb_finite (a b : Q) : (Fin a <=? Fin b) = Qle_bool a b.
Proof. reflexivity. Qed.

Lemma Qle_bool_false (a b : Q) : (b < a)%Q -> Qle_bool a b = false.
Proof.
  intros H. destruct (Qle_bool a b) eqn:E; [|reflexivity].
  apply Qle_bool_iff in E. lra.
Qed.

Lemma Qle_bool_true (a b : Q) : (a <= b)%Q -> Qle_bool a b = true.
Proof. intros H. now apply Qle_bool_iff. Qed.

Lemma sweep_rates_step (fuel : nat) (rate max_rate step : number) :
  sweep_rates (S fuel) rate max_rate step
  = if rate <=? max_rate
    then option_map (cons rate)
           (sweep_rates fuel (rate + step) max_rate step)
    else Some [].
Proof. reflexivity. Qed.

(** X11. With finite bounds [min_rate <= max_rate] and a finite step that
    is 0 or negative, the loop of [generateSensitivityAnalysis] never
    reaches its exit: no amount of fuel yields a result. *)
Theorem sweep_never_ends (fuel : nat) (base_inputs : Inputs) (m M s : Q) :
  (m <= M)%Q -> (s <= 0)%Q ->
  generateSensitivityAnalysis fuel base_inputs (Fin m) (Fin M) (Fin s) = None.
Proof.
  intros HmM Hs. unfold generateSensitivityAnalysis.
  rewrite sweep_loop_rates.
  assert (H : sweep_rates fuel (Fin m) (Fin M) (Fin s) = None).
  { revert m HmM. induction fuel as [|fuel IH]; intros m HmM;
      [reflexivity|].
    rewrite sweep_rates_step, leb_finite, Qle_bool_true by exact HmM.
    change (Fin m + Fin s) with (Fin (m + s)%Q).
    rewrite IH by lra. reflexivity. }
  now rewrite H.
Qed.

Lemma sweep_never_ends_witness :
  generateSensitivityAnalysis 1000 scenario_A 5%Z 15%Z 0%Z = None.
Proof.
  apply (sweep_never_ends 1000 scenario_A (inject_Z 5) (inject_Z 15)
           (inject_Z 0)).
  - discriminate.
  - discriminate.
Defined.

(** ** Parameter sweeps *)

Lemma range_loop_map (base_inputs : Inputs) (param_key : ParamKey)
  (param_range : list number) (lcoe_values : list RangePoint) :
  range_loop base_inputs param_key param_range lcoe_values
  = lcoe_values ++ map (range_point_at base_inputs param_key) param_range.
Proof.
  revert lcoe_values. induction param_range as [|value rest IH];
    intros lcoe_values; simpl.
  - now rewrite app_nil_r.
  - rewrite IH, <- app_assoc. reflexivity.
Qed.

(** X13. A parameter sweep over ['discount_rate'] with the rates that
    [generateSensitivityAnalysis] visited gives, point for point, the same
    rates and the same two levelized costs as that analysis, whatever the
    bounds and the step were. *)
Theorem range_sweep_agrees_with_sensitivity (fuel : nat)
  (base_inputs : Inputs) (min_rate max_rate step : number)
  (points : list SensitivityPoint) :
  generateSensitivityAnalysis fuel base_inputs min_rate max_rate step
  = Some points ->
  map (fun p => (rp_value p, rp_lcoe_kwh p, rp_lcoe_mwh p))
    (generateParameterRange base_inputs key_discount_rate
       (map pt_rate points))
  = map (fun p => (pt_rate p, pt_lcoe_kwh p, pt_lcoe_mwh p)) points.
Proof.
  unfold generateSensitivityAnalysis, generateParameterRange.
  rewrite sweep_loop_rates, range_loop_map.
  destruct (sweep_rates fuel min_rate max_rate step) as [rates|];
    [|discriminate].
  simpl. intros H. injection H as <-.
  rewrite !map_map. apply map_ext. intros rate. reflexivity.
Qed.

Lemma range_sweep_agrees_with_sensitivity_witness :
  map (fun p => (rp_value p, rp_lcoe_kwh p, rp_lcoe_mwh p))
    (generateParameterRange one_year key_discount_rate
       (map pt_rate (map (point_at one_year) (map Fin default_rates))))
  = map (fun p => (pt_rate p, pt_lcoe_kwh p, pt_lcoe_mwh p))
      (map (point_at one_year) (map Fin default_rates)).
Proof.
  apply (range_sweep_agrees_with_sensitivity 22 one_year
           default_min_rate default_max_rate default_step).
  unfold generateSensitivityAnalysis.
  rewrite sweep_loop_rates, default_sweep_rates by lia.
  reflexivity.
Defined.

(** ** The amortizing payment *)



(** ** Discounting never adds *)

(** X16. For a record with a positive finite capacity, finite
    non-negative CAPEX rate, OPEX percentage and interest rate, and a
    finite discount rate of 0 or more, the present value of costs is
    finite and does not exceed the undiscounted sum of the annual cash
    flows of Step 5. *)
Theorem npv_opex_at_most_undiscounted (inputs : Inputs) (c k o ir d : Q) :
  capacity inputs = Fin c /\ (0 < c)%Q ->
  capex_per_mw inputs = Fin k /\ (0 <= k)%Q ->
  opex_percent inputs = Fin o /\ (0 <= o)%Q ->
  interest_rate inputs = Fin ir /\ (0 <= ir)%Q ->
  discount_rate inputs = Fin d /\ (0 <= d)%Q ->
  finite_ge
    (sum_upto (annual_cash_flow inputs) (Z.to_nat (project_lifetime inputs)))
    (npv_opex (calculateLCOE inputs)).
Proof.
  intros Hc Hk Ho Hi [Hd Hd0].
  set (n := Z.to_nat (project_lifetime inputs)).
  rewrite npv_opex_loop, Hd. fold n.
  change (Fin d / 100%Z) with (Fin (d / inject_Z 100)%Q).
  set (b := (inject_Z 1 + d / inject_Z 100)%Q).
  assert (Hb : (1 <= b)%Q).
  { unfold b. change (inject_Z 1) with 1%Q.
    assert (H : (0 <= d / inject_Z 100)%Q)
      by (apply Qle_shift_div_l; [reflexivity | lra]).
    lra. }
  assert (Hpow : forall j : nat, (1 <= b ^ Z.of_nat j)%Q)
    by (intros j; apply Qpower_1_le; [exact Hb | lia]).
  rewrite <- for_loop_sum. unfold npv_loop.
  change (length ((0%Z : number) :: map (annual_cash_flow inputs) (seq 0 n)))
    with (S (length (map (annual_cash_flow inputs) (seq 0 n)))).
  rewrite length_map, length_seq, for_loop_first, for_loop_shift.
  apply for_loop_rel; cbv beta.
  - rewrite index_leading_zero by lia.
    rewrite one_plus_finite, pow_finite. fold b.
    specialize (Hpow (0 + 1)%nat).
    change (of_Z 0) with (Fin 0%Q).
    rewrite div_finite by lra.
    exists 0%Q, (0 + 0 / b ^ Z.of_nat (0 + 1))%Q.
    split; [reflexivity|]. split; [reflexivity|].
    apply Qle_lteq. right. field. lra.
  - intros j s t Hj (x & y & -> & -> & Hxy).
    rewrite index_leading_zero by lia.
    pose proof (annual_cash_flow_finite_nonneg inputs c k o ir Hc Hk Ho Hi
                  (discount_rate inputs) j) as (cf & Hcf & Hcf0).
    change (annual_cash_flow
              (with_discount_rate inputs (discount_rate inputs)) j)
      with (annual_cash_flow inputs j) in Hcf.
    rewrite Hcf, one_plus_finite, pow_finite. fold b.
    specialize (Hpow (S j + 1)%nat). rewrite div_finite by lra.
    eexists; eexists. split; [reflexivity|]. split; [reflexivity|].
    apply Qplus_le_compat; [exact Hxy|].
    apply Qle_shift_div_r; [lra|].
    assert (H : (cf * 1 <= cf * b ^ Z.of_nat (S j + 1))%Q).
    { rewrite (Qmult_comm cf), (Qmult_comm cf).
      apply Qmult_le_compat_r; assumption. }
    lra.
Qed.

Lemma npv_opex_at_most_undiscounted_witness :
  finite_ge
    (sum_upto (annual_cash_flow scenario_A)
       (Z.to_nat (project_lifetime scenario_A)))
    (npv_opex (calculateLCOE scenario_A)).
Proof.
  apply (npv_opex_at_most_undiscounted scenario_A
           (inject_Z 1) (inject_Z 34400000) (inject_Z 1) (825 # 100)
           (inject_Z 9)).
  - split; reflexivity.
  - split; [reflexivity | discriminate].
  - split; [reflexivity | discriminate].
  - split; [reflexivity | discriminate].
  - split; [reflexivity | discriminate].
Defined.

(** ** The two present-value functions compared *)

(** One more period of discounting at a rate that is not negative does
    not raise a flow that is not negative. *)
Lemma discounted_one_more (cf b : Q) (n : nat) :
  (0 <= cf)%Q -> (1 <= b)%Q ->
  (cf / b ^ Z.of_nat (S n) <= cf / b ^ Z.of_nat n)%Q.
Proof.
  intros Hcf Hb.
  assert (Hg : (0 < b ^ Z.of_nat n)%Q) by (apply Qpower_0_lt; lra).
  assert (Hg' : (0 < b ^ Z.of_nat (S n))%Q) by (apply Qpower_0_lt; lra).
  apply Qle_shift_div_r; [exact Hg'|].
  rewrite Qpower_nat_succ.
  assert (E : (cf / b ^ Z.of_nat n * (b * b ^ Z.of_nat n) == cf * b)%Q)
    by (field; lra).
  rewrite E.
  assert (H : (cf * 1 <= cf * b)%Q).
  { rewrite (Qmult_comm cf 1), (Qmult_comm cf b).
    apply Qmult_le_compat_r; assumption. }
  lra.
Qed.

(** X5. On finite flows that are not negative and at a finite discount
    rate of 0 or more, the value [calculateNPVlikeExcel] computes does
    not exceed the value of [calculateNPV] on the same flows: the
    inserted zero moves every flow one period further away. *)
Theorem npv_like_excel_at_most_npv (flows : list Q) (d : Q) :
  Forall (Qle 0) flows ->
  (0 <= d)%Q ->
  finite_ge (calculateNPV (Fin d) (map Fin flows))
    (fst (calculateNPVlikeExcel (Fin d) (map Fin flows))).
Proof.
  intros Hflows Hd.
  set (b := (inject_Z 1 + d / inject_Z 100)%Q).
  assert (Hb : (1 <= b)%Q).
  { unfold b. change (inject_Z 1) with 1%Q.
    assert (H : (0 <= d / inject_Z 100)%Q)
      by (apply Qle_shift_div_l; [reflexivity | lra]).
    lra. }
  assert (Hpow : forall j : nat, (0 < b ^ Z.of_nat j)%Q)
    by (intros j; apply Qpower_0_lt; lra).
  unfold calculateNPVlikeExcel, calculateNPV. cbn [fst]. unfold npv_loop.
  change (length ((0%Z : number) :: map Fin flows))
    with (S (length (map Fin flows))).
  rewrite for_loop_first, for_loop_shift.
  apply for_loop_rel; cbv beta.
  - change (index ((0%Z : number) :: map Fin flows) 0) with (Fin 0%Q).
    rewrite rate_finite, pow_finite. fold b.
    specialize (Hpow (0 + 1)%nat).
    rewrite div_finite by lra.
    exists 0%Q, (0 + 0 / b ^ Z.of_nat (0 + 1))%Q.
    split; [reflexivity|]. split; [reflexivity|].
    apply Qle_lteq. right. field. lra.
  - intros k s t Hk (x & y & -> & -> & Hyx).
    rewrite length_map in Hk.
    change (index ((0%Z : number) :: map Fin flows) (S k))
      with (index (map Fin flows) k).
    rewrite index_map_finite by lia.
    assert (Hcf : (0 <= nth k flows 0)%Q).
    { rewrite Forall_forall in Hflows. apply Hflows. apply nth_In. lia. }
    rewrite rate_finite, !pow_finite. fold b.
    rewrite !div_finite
      by (intros E; pose proof (Hpow (k + 1)%nat);
          pose proof (Hpow (S k + 1)%nat); lra).
    eexists; eexists. split; [reflexivity|]. split; [reflexivity|].
    apply Qplus_le_compat; [exact Hyx|].
    change (S k + 1)%nat with (S (k + 1)).
    apply discounted_one_more; assumption.
Qed.

Lemma npv_like_excel_at_most_npv_witness :
  finite_ge (calculateNPV 9%Z (map Fin [6; 4]))
    (fst (calculateNPVlikeExcel 9%Z (map Fin [6; 4]))).
Proof.
  apply (npv_like_excel_at_most_npv [6; 4] (inject_Z 9)).
  - repeat constructor; discriminate.
  - discriminate.
Defined.

(** ** The levelized cost is not negative *)

Lemma gtb_finite_positive (t : Q) : (Fin t >? 0%Z) = true -> (0 < t)%Q.
Proof.
  unfold gtb, ltb. intros H. apply negb_true_iff in H.
  destruct (Qlt_le_dec 0 t) as [Ht|Ht]; [exact Ht|].
  apply Qle_bool_iff in Ht. change (inject_Z 0) with 0%Q in H. congruence.
Qed.

Section SoundCosts.

Variable inputs : Inputs.
Variables c k o ir d : Q.
Hypothesis capacity_positive : capacity inputs = Fin c /\ (0 < c)%Q.
Hypothesis capex_per_mw_nonneg : capex_per_mw inputs = Fin k /\ (0 <= k)%Q.
Hypothesis opex_percent_nonneg : opex_percent inputs = Fin o /\ (0 <= o)%Q.
Hypothesis interest_rate_nonneg : interest_rate inputs = Fin ir /\ (0 <= ir)%Q.
Hypothesis discount_rate_nonneg : discount_rate inputs = Fin d /\ (0 <= d)%Q.

(** The numerator of the levelized cost, CAPEX plus the present value
    of costs, is finite and not negative. *)
Lemma lifecycle_cost_finite_nonneg :
  finite_nonneg
    (capex (calculateLCOE inputs) + npv_opex (calculateLCOE inputs)).
Proof.
  destruct discount_rate_nonneg as [Hd Hd0].
  pose proof (capex_finite_nonneg inputs c k capacity_positive
                capex_per_mw_nonneg (discount_rate inputs)) as [Hcapex HA].
  change (capex (calculateLCOE
                   (with_discount_rate inputs (discount_rate inputs))))
    with (capex (calculateLCOE inputs)) in Hcapex.
  assert (Hnpv : finite_nonneg (npv_opex (calculateLCOE inputs))).
  { rewrite npv_opex_loop, Hd.
    change (Fin d / 100%Z) with (Fin (d / inject_Z 100)%Q).
    apply npv_loop_finite_nonneg.
    - assert (H : (0 <= d / inject_Z 100)%Q)
        by (apply Qle_shift_div_l; [reflexivity | lra]).
      change (inject_Z 1) with 1%Q. lra.
    - constructor.
      + exists 0%Q. split; [reflexivity | apply Qle_refl].
      + apply Forall_forall. intros x Hx. apply in_map_iff in Hx.
        destruct Hx as (year & <- & _).
        apply (annual_cash_flow_finite_nonneg inputs c k o ir
                 capacity_positive capex_per_mw_nonneg opex_percent_nonneg
                 interest_rate_nonneg (discount_rate inputs) year). }
  destruct Hnpv as (n & Hn & Hn0). rewrite Hcapex, Hn.
  exists (k / c + n)%Q. split; [reflexivity | lra].
Qed.

End SoundCosts.

(** X7. For a record with a positive finite capacity, finite
    non-negative CAPEX rate, OPEX percentage and interest rate and a
    finite discount rate of 0 or more, neither levelized cost is
    negative, whatever the generation, the loan tenure and the lifetime
    are. *)
Theorem lcoe_not_negative (inputs : Inputs) (c k o ir d : Q) :
  capacity inputs = Fin c /\ (0 < c)%Q ->
  capex_per_mw inputs = Fin k /\ (0 <= k)%Q ->
  opex_percent inputs = Fin o /\ (0 <= o)%Q ->
  interest_rate inputs = Fin ir /\ (0 <= ir)%Q ->
  discount_rate inputs = Fin d /\ (0 <= d)%Q ->
  let r := calculateLCOE inputs in
  ((0%Z : number) <=? lcoe_mwh r) = true
  /\ ((0%Z : number) <=? lcoe_kwh r) = true.
Proof.
  intros Hc Hk Ho Hi Hd r.
  destruct (lifecycle_cost_finite_nonneg inputs c k o ir d Hc Hk Ho Hi Hd)
    as (n & Hn & Hn0).
  fold r in Hn.
  assert (Hm : exists m : Q, lcoe_mwh r = Fin m /\ (0 <= m)%Q).
  { pose proof (lcoe_mwh_guard inputs) as G. cbv zeta in G. fold r in G.
    rewrite G, Hn.
    destruct (total_energy r) as [t| | |];
      try (exists 0%Q; split; [reflexivity | apply Qle_refl]).
    destruct (Fin t >? 0%Z) eqn:Hgt;
      [|exists 0%Q; split; [reflexivity | apply Qle_refl]].
    apply gtb_finite_positive in Hgt.
    rewrite div_finite by lra.
    eexists. split; [reflexivity|].
    apply Qle_shift_div_l; [exact Hgt | lra]. }
  destruct Hm as (m & Hm & Hm0).
  change (lcoe_kwh r) with (lcoe_mwh r / 1000%Z). rewrite Hm.
  split.
  - apply Qle_bool_iff. exact Hm0.
  - change (Fin m / 1000%Z) with (Fin (m / inject_Z 1000)%Q).
    apply Qle_bool_iff. change (inject_Z 0) with 0%Q.
    apply Qle_shift_div_l; [reflexivity | lra].
Qed.

Lemma lcoe_not_negative_witness :
  ((0%Z : number) <=? lcoe_mwh (calculateLCOE scenario_A)) = true
  /\ ((0%Z : number) <=? lcoe_kwh (calculateLCOE scenario_A)) = true.
Proof.
  apply (lcoe_not_negative scenario_A
           (inject_Z 1) (inject_Z 34400000) (inject_Z 1) (825 # 100)
           (inject_Z 9)).
  - split; reflexivity.
  - split; [reflexivity | discriminate].
  - split; [reflexivity | discriminate].
  - split; [reflexivity | discriminate].
  - split; [reflexivity | discriminate].
Defined.

(** ** How the levelized cost responds to CAPEX and energy *)

Lemma finite_ge_add (x y x' y' : number) :
  finite_ge x y -> finite_ge x' y' -> finite_ge (x + x') (y + y').
Proof.
  intros (a & b & -> & -> & H) (a' & b' & -> & -> & H').
  exists (a + a')%Q, (b + b')%Q.
  split; [reflexivity|]. split; [reflexivity | lra].
Qed.

Lemma finite_ge_mul_r (x y : number) (q : Q) :
  (0 <= q)%Q -> finite_ge x y -> finite_ge (x * Fin q) (y * Fin q).
Proof.
  intros Hq (a & b & -> & -> & H).
  exists (a * q)%Q, (b * q)%Q.
  split; [reflexivity|]. split; [reflexivity|].
  apply Qmult_le_compat_r; assumption.
Qed.

Lemma finite_ge_div_r (x y : number) (q : Q) :
  (0 < q)%Q -> finite_ge x y -> finite_ge (x / Fin q) (y / Fin q).
Proof.
  intros Hq (a & b & -> & -> & H).
  rewrite !div_finite by lra.
  exists (a / q)%Q, (b / q)%Q.
  split; [reflexivity|]. split; [reflexivity|].
  unfold Qdiv. apply Qmult_le_compat_r; [exact H|].
  apply Qinv_le_0_compat. lra.
Qed.

Lemma finite_ge_zero : finite_ge (0%Z : number) (0%Z : number).
Proof.
  exists 0%Q, 0%Q. split; [reflexivity|]. split; [reflexivity|].
  apply Qle_refl.
Qed.

Lemma sum_upto_ge (f g : nat -> number) (n : nat) :
  (forall i, finite_ge (f i) (g i)) ->
  finite_ge (sum_upto f n) (sum_upto g n).
Proof.
  intros H. induction n as [|n IH]; [apply finite_ge_zero|].
  simpl. apply finite_ge_add; [exact IH | apply H].
Qed.

Section HigherCapex.

Variable inputs : Inputs.
Variables c k1 k2 o ir d : Q.
Hypothesis capacity_positive : capacity inputs = Fin c /\ (0 < c)%Q.
Hypothesis rates_ordered : (k1 <= k2)%Q.
Hypothesis opex_percent_nonneg : opex_percent inputs = Fin o /\ (0 <= o)%Q.
Hypothesis interest_rate_nonneg : interest_rate inputs = Fin ir /\ (0 <= ir)%Q.
Hypothesis discount_rate_nonneg : discount_rate inputs = Fin d /\ (0 <= d)%Q.

Local Notation inputs1 := (with_param inputs key_capex_per_mw (Fin k1)).
Local Notation inputs2 := (with_param inputs key_capex_per_mw (Fin k2)).

Lemma capex_ordered :
  finite_ge (capex (calculateLCOE inputs2)) (capex (calculateLCOE inputs1)).
Proof.
  destruct capacity_positive as [Hc Hc0].
  change (capex (calculateLCOE inputs2)) with (Fin k2 / capacity inputs).
  change (capex (calculateLCOE inputs1)) with (Fin k1 / capacity inputs).
  rewrite Hc. apply finite_ge_div_r; [exact Hc0|].
  exists k2, k1. split; [reflexivity|]. split; [reflexivity | exact rates_ordered].
Qed.

Lemma annual_cash_flow_ordered (year : nat) :
  finite_ge (annual_cash_flow inputs2 year) (annual_cash_flow inputs1 year).
Proof.
  destruct opex_percent_nonneg as [Ho Ho0].
  destruct interest_rate_nonneg as [Hi Hi0].
  unfold annual_cash_flow.
  change (annual_opex (calculateLCOE inputs2))
    with ((capex (calculateLCOE inputs2) * opex_percent inputs) / 100%Z).
  change (annual_opex (calculateLCOE inputs1))
    with ((capex (calculateLCOE inputs1) * opex_percent inputs) / 100%Z).
  change (annual_emi (calculateLCOE inputs2))
    with (capex (calculateLCOE inputs2) * (interest_rate inputs / 100%Z)).
  change (annual_emi (calculateLCOE inputs1))
    with (capex (calculateLCOE inputs1) * (interest_rate inputs / 100%Z)).
  change (loan_tenure inputs2) with (loan_tenure inputs).
  change (loan_tenure inputs1) with (loan_tenure inputs).
  rewrite Ho, Hi.
  change (Fin ir / 100%Z) with (Fin (ir / inject_Z 100)%Q).
  change (of_Z 100) with (Fin (inject_Z 100)).
  apply finite_ge_add.
  - unfold om_year.
    change (1%Z + CONSTANTS.opex_escalation_rate)
      with (Fin (inject_Z 1 + (5 # 100))%Q).
    rewrite pow_finite.
    apply finite_ge_mul_r; [apply Qpower_0_le; discriminate|].
    apply finite_ge_div_r; [reflexivity|].
    apply finite_ge_mul_r; [exact Ho0 | exact capex_ordered].
  - unfold emi_year.
    destruct (of_Z (Z.of_nat year) <? loan_tenure inputs);
      [|apply finite_ge_zero].
    apply finite_ge_mul_r; [|exact capex_ordered].
    apply Qle_shift_div_l; [reflexivity | lra].
Qed.

Lemma lifecycle_cost_ordered :
  finite_ge
    (capex (calculateLCOE inputs2) + npv_opex (calculateLCOE inputs2))
    (capex (calculateLCOE inputs1) + npv_opex (calculateLCOE inputs1)).
Proof.
  destruct discount_rate_nonneg as [Hd Hd0].
  apply finite_ge_add; [exact capex_ordered|].
  rewrite !npv_opex_loop.
  change (discount_rate inputs2) with (discount_rate inputs).
  change (discount_rate inputs1) with (discount_rate inputs).
  change (project_lifetime inputs2) with (project_lifetime inputs).
  change (project_lifetime inputs1) with (project_lifetime inputs).
  rewrite Hd.
  set (n := Z.to_nat (project_lifetime inputs)).
  unfold npv_loop. simpl length. rewrite !length_map, !length_seq.
  apply for_loop_rel; [apply finite_ge_zero|].
  intros j s t Hj Hst. cbv beta. apply finite_ge_add; [exact Hst|].
  rewrite rate_finite, pow_finite.
  apply finite_ge_div_r.
  - apply Qpower_0_lt.
    assert (H : (0 <= d / inject_Z 100)%Q)
      by (apply Qle_shift_div_l; [reflexivity | lra]).
    change (inject_Z 1) with 1%Q. lra.
  - rewrite !index_leading_zero by lia.
    destruct j; [apply finite_ge_zero | apply annual_cash_flow_ordered].
Qed.

End HigherCapex.

(** X9. The levelized cost does not go down when the CAPEX rate goes
    up: for a record with a positive finite capacity, finite non-negative
    OPEX percentage and interest rate and a finite discount rate of 0 or
    more, and two finite CAPEX rates [k1 <= k2], both levelized costs at
    [k1] are at most those at [k2], whatever the generation, the loan
    tenure and the lifetime are. *)
Theorem lcoe_monotone_in_capex (inputs : Inputs) (c k1 k2 o ir d : Q) :
  capacity inputs = Fin c /\ (0 < c)%Q ->
  (k1 <= k2)%Q ->
  opex_percent inputs = Fin o /\ (0 <= o)%Q ->
  interest_rate inputs = Fin ir /\ (0 <= ir)%Q ->
  discount_rate inputs = Fin d /\ (0 <= d)%Q ->
  let r1 := calculateLCOE (with_param inputs key_capex_per_mw (Fin k1)) in
  let r2 := calculateLCOE (with_param inputs key_capex_per_mw (Fin k2)) in
  (lcoe_mwh r1 <=? lcoe_mwh r2) = true
  /\ (lcoe_kwh r1 <=? lcoe_kwh r2) = true.
Proof.
  intros Hc Hk Ho Hi Hd r1 r2.
  destruct (lifecycle_cost_ordered inputs c k1 k2 o ir d Hc Hk Ho Hi Hd)
    as (n2 & n1 & Hn2 & Hn1 & Hn).
  fold r1 in Hn1. fold r2 in Hn2.
  assert (Hm : finite_ge (lcoe_mwh r2) (lcoe_mwh r1)).
  { pose proof (lcoe_mwh_guard (with_param inputs key_capex_per_mw (Fin k1)))
      as G1.
    pose proof (lcoe_mwh_guard (with_param inputs key_capex_per_mw (Fin k2)))
      as G2.
    cbv zeta in G1, G2. fold r1 in G1. fold r2 in G2.
    change (total_energy r2) with (total_energy r1) in G2.
    rewrite G1, G2, Hn1, Hn2.
    destruct (total_energy r1) as [t| | |]; try apply finite_ge_zero.
    destruct (Fin t >? 0%Z) eqn:Hgt; [|apply finite_ge_zero].
    apply gtb_finite_positive in Hgt.
    apply finite_ge_div_r; [exact Hgt|].
    exists n2, n1. split; [reflexivity|]. split; [reflexivity | exact Hn]. }
  assert (Hk' : finite_ge (lcoe_kwh r2) (lcoe_kwh r1)).
  { change (lcoe_kwh r2) with (lcoe_mwh r2 / Fin (inject_Z 1000)).
    change (lcoe_kwh r1) with (lcoe_mwh r1 / Fin (inject_Z 1000)).
    apply finite_ge_div_r; [reflexivity | exact Hm]. }
  destruct Hm as (a & b & -> & -> & Hab).
  destruct Hk' as (a' & b' & -> & -> & Hab').
  split; apply Qle_bool_iff; assumption.
Qed.

Lemma lcoe_monotone_in_capex_witness :
  (lcoe_kwh
     (calculateLCOE (with_param scenario_A key_capex_per_mw (Fin 30000000)))
   <=? lcoe_kwh
         (calculateLCOE
            (with_param scenario_A key_capex_per_mw (Fin 35000000))))
  = true.
Proof.
  assert (Hc : capacity scenario_A = Fin (inject_Z 1) /\ (0 < inject_Z 1)%Q)
    by (split; reflexivity).
  assert (Hk : (30000000 <= 35000000)%Q) by discriminate.
  assert (Ho : opex_percent scenario_A = Fin (inject_Z 1)
               /\ (0 <= inject_Z 1)%Q)
    by (split; [reflexivity | discriminate]).
  assert (Hi : interest_rate scenario_A = Fin (825 # 100)
               /\ (0 <= 825 # 100)%Q)
    by (split; [reflexivity | discriminate]).
  assert (Hd : discount_rate scenario_A = Fin (inject_Z 9)
               /\ (0 <= inject_Z 9)%Q)
    by (split; [reflexivity | discriminate]).
  pose proof (lcoe_monotone_in_capex scenario_A _ _ _ _ _ _ Hc Hk Ho Hi Hd)
    as H.
  cbv zeta in H. exact (proj2 H).
Defined.

(** X10. The levelized cost does not go up when the annual generation
    goes up: for a record with a positive finite capacity, finite
    non-negative CAPEX rate, OPEX percentage and interest rate and a
    finite discount rate of 0 or more, and two finite generations
    [e1 <= e2] of which the lower already gives a total energy above 0,
    both levelized costs at [e2] are at most those at [e1]. *)
Theorem lcoe_antitone_in_energy (inputs : Inputs) (c k o ir d e1 e2 : Q) :
  capacity inputs = Fin c /\ (0 < c)%Q ->
  capex_per_mw inputs = Fin k /\ (0 <= k)%Q ->
  opex_percent inputs = Fin o /\ (0 <= o)%Q ->
  interest_rate inputs = Fin ir /\ (0 <= ir)%Q ->
  discount_rate inputs = Fin d /\ (0 <= d)%Q ->
  (e1 <= e2)%Q ->
  let r1 := calculateLCOE (with_param inputs key_energy_generation (Fin e1)) in
  let r2 := calculateLCOE (with_param inputs key_energy_generation (Fin e2)) in
  (total_energy r1 >? 0%Z) = true ->
  (lcoe_mwh r2 <=? lcoe_mwh r1) = true
  /\ (lcoe_kwh r2 <=? lcoe_kwh r1) = true.
Proof.
  intros Hc Hk Ho Hi Hd He r1 r2 Hgt.
  destruct (lifecycle_cost_finite_nonneg
              (with_param inputs key_energy_generation (Fin e1))
              c k o ir d Hc Hk Ho Hi Hd) as (n & Hn & Hn0).
  fold r1 in Hn.
  assert (Hn' : capex r2 + npv_opex r2 = Fin n) by exact Hn.
  assert (Hte : finite_ge (total_energy r2) (total_energy r1)).
  { unfold r1, r2. rewrite !total_energy_sum.
    change (project_lifetime
              (with_param inputs key_energy_generation (Fin e2)))
      with (project_lifetime inputs).
    change (project_lifetime
              (with_param inputs key_energy_generation (Fin e1)))
      with (project_lifetime inputs).
    change (energy_generation
              (with_param inputs key_energy_generation (Fin e2)))
      with (Fin e2).
    change (energy_generation
              (with_param inputs key_energy_generation (Fin e1)))
      with (Fin e1).
    change (capacity (with_param inputs key_energy_generation (Fin e2)))
      with (capacity inputs).
    change (capacity (with_param inputs key_energy_generation (Fin e1)))
      with (capacity inputs).
    destruct Hc as [Hc Hc0]. rewrite Hc.
    apply sum_upto_ge. intros i.
    change (1%Z - Fin (5 # 1000)) with (Fin (inject_Z 1 + - (5 # 1000))%Q).
    rewrite pow_finite.
    apply finite_ge_mul_r; [apply Qpower_0_le; discriminate|].
    apply finite_ge_div_r; [exact Hc0|].
    exists e2, e1. split; [reflexivity|]. split; [reflexivity | exact He]. }
  destruct Hte as (t2 & t1 & Ht2 & Ht1 & Ht).
  rewrite Ht1 in Hgt. apply gtb_finite_positive in Hgt.
  assert (Hgt2 : (Fin t2 >? 0%Z) = true).
  { unfold gtb, ltb. apply negb_true_iff.
    destruct (Qle_bool t2 (inject_Z 0)) eqn:E; [|reflexivity].
    apply Qle_bool_iff in E. change (inject_Z 0) with 0%Q in E. lra. }
  assert (Hgt1 : (Fin t1 >? 0%Z) = true).
  { unfold gtb, ltb. apply negb_true_iff.
    destruct (Qle_bool t1 (inject_Z 0)) eqn:E; [|reflexivity].
    apply Qle_bool_iff in E. change (inject_Z 0) with 0%Q in E. lra. }
  pose proof (lcoe_mwh_guard
                (with_param inputs key_energy_generation (Fin e1))) as G1.
  pose proof (lcoe_mwh_guard
                (with_param inputs key_energy_generation (Fin e2))) as G2.
  cbv zeta in G1, G2. fold r1 in G1. fold r2 in G2.
  rewrite Ht1, Hgt1, Hn, div_finite in G1 by lra.
  rewrite Ht2, Hgt2, Hn', div_finite in G2 by lra.
  assert (Hq : (n / t2 <= n / t1)%Q).
  { apply Qle_shift_div_r; [lra|].
    assert (E : (n / t1 * t2 == n * (t2 / t1))%Q) by (field; lra).
    rewrite E.
    assert (H1 : (1 <= t2 / t1)%Q)
      by (apply Qle_shift_div_l; [exact Hgt | lra]).
    assert (H : (n * 1 <= n * (t2 / t1))%Q).
    { rewrite (Qmult_comm n 1), (Qmult_comm n (t2 / t1)).
      apply Qmult_le_compat_r; assumption. }
    lra. }
  change (lcoe_kwh r2) with (lcoe_mwh r2 / Fin (inject_Z 1000)).
  change (lcoe_kwh r1) with (lcoe_mwh r1 / Fin (inject_Z 1000)).
  rewrite G1, G2. split.
  - apply Qle_bool_iff. exact Hq.
  - rewrite !div_finite by discriminate. apply Qle_bool_iff.
    unfold Qdiv at 1 3. apply Qmult_le_compat_r; [exact Hq | discriminate].
Qed.

Lemma lcoe_antitone_in_energy_witness :
  (lcoe_kwh
     (calculateLCOE (with_param one_year key_energy_generation (Fin 2)))
   <=? lcoe_kwh
         (calculateLCOE (with_param one_year key_energy_generation (Fin 1))))
  = true.
Proof.
  assert (Hc : capacity one_year = Fin (inject_Z 1) /\ (0 < inject_Z 1)%Q)
    by (split; reflexivity).
  assert (Hk : capex_per_mw one_year = Fin (inject_Z 4)
               /\ (0 <= inject_Z 4)%Q)
    by (split; [reflexivity | discriminate]).
  assert (Ho : opex_percent one_year = Fin (inject_Z 100)
               /\ (0 <= inject_Z 100)%Q)
    by (split; [reflexivity | discriminate]).
  assert (Hi : interest_rate one_year = Fin (inject_Z 0)
               /\ (0 <= inject_Z 0)%Q)
    by (split; [reflexivity | discriminate]).
  assert (Hd : discount_rate one_year = Fin (inject_Z 100)
               /\ (0 <= inject_Z 100)%Q)
    by (split; [reflexivity | discriminate]).
  assert (He : (1 <= 2)%Q) by discriminate.
  assert (Hgt : (total_energy
                   (calculateLCOE
                      (with_param one_year key_energy_generation (Fin 1)))
                 >? 0%Z) = true) by reflexivity.
  pose proof (lcoe_antitone_in_energy one_year _ _ _ _ _ 1 2
                Hc Hk Ho Hi Hd He) as H.
  cbv zeta in H. exact (proj2 (H Hgt)).
Defined.

(** ** The rates a sweep visits *)

Lemma sweep_rates_bounds (M s : Q) (fuel : nat) (m : Q)
  (rates : list number) :
  (0 < s)%Q ->
  sweep_rates fuel (Fin m) (Fin M) (Fin s) = Some rates ->
  exists qs : list Q,
    rates = map Fin qs
    /\ Forall (fun q => (m <= q)%Q /\ (q <= M)%Q) qs
    /\ StronglySorted Qle qs
    /\ ((m <= M)%Q -> hd_error qs = Some m).
Proof.
  intros Hs. revert m rates.
  induction fuel as [|fuel IH]; intros m rates H; [discriminate H|].
  rewrite sweep_rates_step, leb_finite in H.
  destruct (Qlt_le_dec M m) as [Hgt|Hle].
  - rewrite Qle_bool_false in H by exact Hgt. injection H as <-.
    exists []. split; [reflexivity|]. split; [constructor|].
    split; [constructor | intros Hm; lra].
  - rewrite Qle_bool_true in H by exact Hle.
    change (Fin m + Fin s) with (Fin (m + s)%Q) in H.
    destruct (sweep_rates fuel (Fin (m + s)) (Fin M) (Fin s))
      as [rest|] eqn:E; [|discriminate H].
    injection H as <-.
    destruct (IH (m + s)%Q rest E) as (qs & -> & Hb & Hsorted & _).
    exists (m :: qs). split; [reflexivity|]. split; [|split].
    + constructor; [split; [apply Qle_refl | exact Hle]|].
      apply Forall_impl with (2 := Hb). intros q [H1 H2]. split; lra.
    + constructor; [exact Hsorted|].
      apply Forall_impl with (2 := Hb). intros q [H1 H2]. lra.
    + intros _. reflexivity.
Qed.

(** X12. With finite bounds and a positive finite step, the points
    [generateSensitivityAnalysis] returns, when it returns, are taken at
    rates that lie between [min_rate] and [max_rate] and never go down
    along the list, the first being [min_rate] itself when
    [min_rate <= max_rate]; each point holds the two levelized costs
    [calculateLCOE] gives for the base record at that discount rate. *)
Theorem sweep_rates_within_bounds (fuel : nat) (base_inputs : Inputs)
  (m M s : Q) (points : list SensitivityPoint) :
  (0 < s)%Q ->
  generateSensitivityAnalysis fuel base_inputs (Fin m) (Fin M) (Fin s)
  = Some points ->
  exists qs : list Q,
    points = map (point_at base_inputs) (map Fin qs)
    /\ map pt_rate points = map Fin qs
    /\ Forall (fun q => (m <= q)%Q /\ (q <= M)%Q) qs
    /\ StronglySorted Qle qs
    /\ ((m <= M)%Q -> hd_error qs = Some m).
Proof.
  intros Hs H. unfold generateSensitivityAnalysis in H.
  rewrite sweep_loop_rates in H.
  destruct (sweep_rates fuel (Fin m) (Fin M) (Fin s)) as [rates|] eqn:E;
    [|discriminate H].
  simpl in H. injection H as <-.
  destruct (sweep_rates_bounds M s fuel m rates Hs E)
    as (qs & -> & Hb & Hsorted & Hhd).
  exists qs. split; [reflexivity|]. split; [|auto].
  rewrite map_map.
  transitivity (map (fun x : number => x) (map Fin qs)); [|apply map_id].
  apply map_ext. intros rate. reflexivity.
Qed.

Lemma sweep_rates_within_bounds_witness :
  exists qs : list Q,
    map (point_at scenario_A) (map Fin default_rates)
    = map (point_at scenario_A) (map Fin qs)
    /\ map pt_rate (map (point_at scenario_A) (map Fin default_rates))
       = map Fin qs
    /\ Forall (fun q => (5 <= q)%Q /\ (q <= 15)%Q) qs
    /\ StronglySorted Qle qs
    /\ ((5 <= 15)%Q -> hd_error qs = Some 5%Q).
Proof.
  assert (Hs : (0 < 1 # 2)%Q) by reflexivity.
  apply (sweep_rates_within_bounds 22 scenario_A 5 15 (1 # 2) _ Hs).
  unfold generateSensitivityAnalysis.
  rewrite sweep_loop_rates.
  change (sweep_rates 22 (Fin 5) (Fin 15) (Fin (1 # 2)))
    with (sweep_rates 22 default_min_rate default_max_rate default_step).
  rewrite default_sweep_rates by lia.
  reflexivity.
Defined.
